(** * Vocabulary analysis service: a shallow embedding of [app.py]

    The development follows the layout of the program:
    - [PyStr]       Python [str] values as sequences of code points, with
                    [str.strip], [str.startswith] and the fragment of [re]
                    that the program uses;
    - [Cleanup]     the post-processing of a generated analysis
                    (the two [re.sub] calls and the [strip] in
                    [get_word_analysis]);
    - [Parser]      [parse_vocabulary_file];
    - [Store]       the three tables of the SQLite database;
    - [Templates]   the template routes and [initialize_app];
    - [Analysis]    [get_word_analysis], [analyze] and [reanalyze];
    - [Audio]       the [tts] route. *)

From stdpp Require Import gmap strings list fin_maps pretty sorting.

Local Open Scope N_scope.

(** A Python [str] is a sequence of Unicode code points. *)
Abbreviation pystr := (list N).

Module PyStr.

(** An ASCII literal as a [str]. *)
Definition py (s : string) : pystr :=
  Ascii.N_of_ascii <$> String.list_ascii_of_string s.

Definition NL : N := 10.

(** [str.isspace] on one code point.  [str.strip()] and the class [\s] of
    [re] on [str] patterns use the same predicate; these are the code points
    for which it holds. *)
Definition isspace (c : N) : bool :=
  ((9 <=? c) && (c <=? 13)) || ((28 <=? c) && (c <=? 32))
  || (c =? 133) || (c =? 160) || (c =? 5760)
  || ((8192 <=? c) && (c <=? 8202))
  || (c =? 8232) || (c =? 8233) || (c =? 8239) || (c =? 8287)
  || (c =? 12288).

Fixpoint lstrip (s : pystr) : pystr :=
  match s with
  | c :: s' => if isspace c then lstrip s' else s
  | [] => []
  end.

Definition rstrip (s : pystr) : pystr := rev (lstrip (rev s)).

(** [s.strip()] *)
Definition strip (s : pystr) : pystr := rstrip (lstrip s).

(** [s.startswith(p)] *)
Fixpoint startswith (s p : pystr) : bool :=
  match p, s with
  | [], _ => true
  | a :: p', c :: s' => (c =? a) && startswith s' p'
  | _ :: _, [] => false
  end.

(** A [str] that can be encoded in UTF-8: one without a surrogate code
    point.  [json] accepts an escape such as ["\ud800"], and the [sqlite3]
    module raises [UnicodeEncodeError] when it has to bind such a string. *)
Definition encodable (s : pystr) : bool :=
  forallb (λ c, negb ((0xD800 <=? c) && (c <=? 0xDFFF))) s.

(** Truth value of a [str]: the empty string is false. *)
Definition truthy (s : pystr) : bool :=
  match s with [] => false | _ :: _ => true end.

(** ** The fragment of [re] used by the program

    Both patterns are a sequence of single-character items, each a literal,
    [.] or [\s], taken once, under a greedy star or under a lazy star; both
    begin with [^].  [match_here] is the backtracking matcher of [re] on
    that fragment: it returns what follows the first match in priority
    order (greedy: longest first; lazy: shortest first). *)

Inductive charclass :=
  | Lit (c : N)      (* a literal character *)
  | Dot              (* [.]: anything but a newline (no DOTALL) *)
  | Space.           (* [\s] *)

Inductive item :=
  | One (k : charclass)
  | StarGreedy (k : charclass)     (* [k*]  *)
  | StarLazy (k : charclass).      (* [k*?] *)

Definition cls_match (k : charclass) (c : N) : bool :=
  match k with
  | Lit d => c =? d
  | Dot => negb (c =? NL)
  | Space => isspace c
  end.

Fixpoint match_here (r : list item) : pystr -> option pystr :=
  match r with
  | [] => fun s => Some s
  | One k :: r' => fun s =>
      match s with
      | c :: s' => if cls_match k c then match_here r' s' else None
      | [] => None
      end
  | StarGreedy k :: r' =>
      fix greedy (s : pystr) : option pystr :=
        match s with
        | c :: s' =>
            if cls_match k c then
              match greedy s' with
              | Some rest => Some rest
              | None => match_here r' s
              end
            else match_here r' s
        | [] => match_here r' s
        end
  | StarLazy k :: r' =>
      fix lazy (s : pystr) : option pystr :=
        match match_here r' s with
        | Some rest => Some rest
        | None =>
            match s with
            | c :: s' => if cls_match k c then lazy s' else None
            | [] => None
            end
        end
  end.

(** [re.sub('^' + r, '', s)]: without MULTILINE the anchor holds at the
    start of [s] only, so at most one match is replaced; when nothing
    matches, [s] is returned as it is. *)
Definition re_sub_anchored (r : list item) (s : pystr) : pystr :=
  match match_here r s with
  | Some rest => rest
  | None => s
  end.

Definition lits (s : pystr) : list item := (λ c, One (Lit c)) <$> s.

(** What is left of [s] after its longest prefix of characters of the
    class [k]. *)
Fixpoint skip (k : charclass) (s : pystr) : pystr :=
  match s with
  | c :: s' => if cls_match k c then skip k s' else s
  | [] => []
  end.

End PyStr.

Module Cleanup.
Import PyStr.

(** [r'^好的，这是对.*?的词源分析：\s*'] with [re.IGNORECASE].  The literals
    are CJK ideographs and full-width punctuation; none of them has a case
    variant, so under IGNORECASE each still matches itself only. *)
Definition preamble_head : pystr :=
  [0x597d; 0x7684; 0xff0c; 0x8fd9; 0x662f; 0x5bf9].
Definition preamble_tail : pystr :=
  [0x7684; 0x8bcd; 0x6e90; 0x5206; 0x6790; 0xff1a].

Definition preamble_re : list item :=
  lits preamble_head ++ [StarLazy Dot] ++ lits preamble_tail
    ++ [StarGreedy Space].

(** The part of the preamble pattern after [.*?]. *)
Definition after_name : list item :=
  lits preamble_tail ++ [StarGreedy Space].

(** [r'^#\s*.*\s*'] *)
Definition heading_re : list item :=
  [One (Lit 35); StarGreedy Space; StarGreedy Dot; StarGreedy Space].

(** Lines 123-124 of [get_word_analysis]. *)
Definition cleanup (analysis_text : pystr) : pystr :=
  let analysis_text := re_sub_anchored preamble_re analysis_text in
  strip (re_sub_anchored heading_re analysis_text).

(** Two heading lines, ["# A\n# B"]. *)
Definition two_headings : pystr := py "# A" ++ [NL] ++ py "# B".

End Cleanup.

Module Parser.
Import PyStr.

(** A unit is the dict [{'title': ..., 'groups': [...]}]; a group is a list
    of lines. *)
Record unit_ := mk_unit { title : pystr; groups : list (list pystr) }.

(** The four local variables of [parse_vocabulary_file].  [None] is
    Python's [None].

    The source mutates the dict [current_unit] and the list [current_group]
    in place.  A unit is appended to [units] only in the branch that rebinds
    [current_unit] to a fresh dict, and a group is appended to a unit only
    in the branch that rebinds [current_group] to a fresh list (or at the
    end of the input), so an object is never changed after it has been
    appended: values can stand for the objects. *)
Record pstate := mk_pstate {
  units : list unit_;
  current_unit : option unit_;
  current_group : option (list pystr);
  previous_line : option pystr
}.

Definition initial : pstate := mk_pstate [] None None None.

(** [current_unit['groups'].append(current_group)] under the test
    [current_group is not None and current_unit]; a dict with two keys is
    true whenever it is not [None]. *)
Definition flush_group (st : pstate) : option unit_ :=
  match current_group st, current_unit st with
  | Some g, Some u => Some (mk_unit (title u) (groups u ++ [g]))
  | _, _ => current_unit st
  end.

(** The body of the [for] loop, lines 75-92. *)
Definition step (st : pstate) (raw : pystr) : pstate :=
  let line := strip raw in
  if negb (truthy line) then st
  else if startswith line (py "===") then
    mk_pstate
      (match current_unit st with
       | Some u => units st ++ [u]
       | None => units st
       end)
      (Some (mk_unit [] []))
      (current_group st)
      None
  else if startswith line (py "+++") then
    match current_unit st, previous_line st with
    | Some u, Some p =>
        if truthy p then
          mk_pstate (units st) (Some (mk_unit p (groups u)))
            (current_group st) None
        else st
    | _, _ => st
    end
  else if startswith line (py "---") then
    mk_pstate (units st) (flush_group st) (Some []) (previous_line st)
  else
    mk_pstate (units st) (current_unit st)
      (match current_group st, current_unit st with
       | Some g, Some u =>
           if truthy (title u) then Some (g ++ [line]) else Some g
       | _, _ => current_group st
       end)
      (Some line).

(** Lines 93-95: what is returned once the loop is over. *)
Definition finish (st : pstate) : list unit_ :=
  match flush_group st with
  | Some u => units st ++ [u]
  | None => units st
  end.

Definition parse_lines (lines : list pystr) : list unit_ :=
  finish (foldl step initial lines).

(** Text mode with the default [newline=None]: ["\r\n"] and a lone ["\r"]
    are read as ["\n"]. *)
Fixpoint universal_newlines (s : pystr) : pystr :=
  match s with
  | [] => []
  | c :: s' =>
      if c =? 13 then
        NL :: match s' with
              | d :: s'' =>
                  if d =? NL then universal_newlines s''
                  else universal_newlines s'
              | [] => []
              end
      else c :: universal_newlines s'
  end.

(** [file.readlines()]: every line keeps its newline; [cur] is the line
    being read, last character first. *)
Fixpoint split_lines (cur s : pystr) : list pystr :=
  match s with
  | [] => match cur with [] => [] | _ :: _ => [rev cur] end
  | c :: s' =>
      if c =? NL then rev (c :: cur) :: split_lines [] s'
      else split_lines (c :: cur) s'
  end.

Definition readlines (text : pystr) : list pystr :=
  split_lines [] (universal_newlines text).

(** The lines made of [bodies], each ended by a newline, and of an
    unfinished line [last] when that is not empty. *)
Definition lines_of (bodies : list pystr) (last : pystr) : list pystr :=
  ((λ b, b ++ [NL]) <$> bodies)
    ++ match last with [] => [] | _ :: _ => [last] end.

(** [parse_vocabulary_file(file_path)]; the argument is the decoded content
    of the file at [file_path], [None] when [os.path.exists] is false. *)
Definition parse_vocabulary_file (file : option pystr) : list unit_ :=
  match file with
  | None => []
  | Some text => parse_lines (readlines text)
  end.

(** A line that opens a unit, and a line that opens a group. *)
Definition unit_marker (raw : pystr) : bool :=
  startswith (strip raw) (py "===").

Definition group_marker (raw : pystr) : bool :=
  startswith (strip raw) (py "---").

(** A line that reaches the last branch of the loop: not blank and without
    one of the three marker prefixes. *)
Definition content_line (raw : pystr) : bool :=
  truthy (strip raw)
  && negb (startswith (strip raw) (py "==="))
  && negb (startswith (strip raw) (py "+++"))
  && negb (startswith (strip raw) (py "---")).

(** Every title and every stored line of a unit, and of a parser state,
    satisfies [P]; a title may also be empty. *)
Definition unit_from (P : pystr -> Prop) (u : unit_) : Prop :=
  (title u = [] ∨ P (title u)) ∧ Forall (Forall P) (groups u).

Definition state_from (P : pystr -> Prop) (st : pstate) : Prop :=
  Forall (unit_from P) (units st)
  ∧ (∀ u, current_unit st = Some u → unit_from P u)
  ∧ (∀ g, current_group st = Some g → Forall P g)
  ∧ (∀ p, previous_line st = Some p → P p).

(** The lines of the scenario, and the same input as one text. *)
Definition scenario_lines : list pystr :=
  [py "=== "; py "Title A"; py "+++"; py "line1"; py "line2"; py "---";
   py "lineX"].

Definition scenario_text : pystr :=
  concat ((λ l, l ++ [NL]) <$> scenario_lines).

End Parser.

Module Store.

(** A row of [prompt_templates], without its key. *)
Record template := mk_template { name : pystr; content : pystr }.

(** The database.  [schema.sql] is not part of the sources; the tables are
    the ones the queries of [app.py] name:
    - [word_cache(word, analysis)], one row per word
      ([INSERT OR REPLACE] keyed by [word]);
    - [prompt_templates(id, name, content)], keyed by [id];
    - [app_settings], the single row [id = 1] with its
      [active_template_id], or no row at all ([None]).

    A connection is opened per request by [get_db] and never sets
    [PRAGMA foreign_keys], so SQLite checks no foreign key: the stored
    [active_template_id] is whatever was last written. *)
Record db := mk_db {
  word_cache : gmap pystr pystr;
  prompt_templates : gmap Z template;
  app_settings : option Z
}.

Definition empty_db : db := mk_db ∅ ∅ None.

(** [jsonify(...)] bodies and the other values a route returns. *)
Inductive payload :=
  | Analysis (text : pystr)                 (* [{'analysis': text}] *)
  | Error (msg : pystr)                     (* [{'error': msg}] *)
  | Message (msg : pystr)                   (* [{'message': msg}] *)
  | Created (msg : pystr) (id : Z)          (* [{'message': msg, 'id': id}] *)
  | TemplateRow (id : Z) (t : template)     (* [dict(template)] *)
  | TemplateList (rows : list (Z * pystr))  (* [[{'id':..,'name':..}, ..]] *)
  | File (data : list Byte.byte)                (* [send_from_directory] *)
  | Empty                                   (* [''] *)
  | Unhandled.                              (* an exception left the view *)

(** A response: body and HTTP status. *)
Definition response : Type := payload * Z.

End Store.

Module Templates.
Import PyStr Store.

Local Open Scope Z_scope.

(** Modelled from the spec: [schema.sql] is missing; [prompt_templates.id]
    is the generated integer primary key and [name] is UNIQUE.  A generated
    key is SQLite's next rowid, one more than the largest key in the table
    (1 in an empty table). *)
Definition next_rowid (m : gmap Z template) : Z :=
  foldr Z.max 0 (elements (dom m)) + 1.

(** Modelled from the spec: the UNIQUE constraint on [name]; [name_taken]
    holds when a row other than [self] has the name, the case in which
    SQLite raises [IntegrityError]. *)
Definition name_taken (self : option Z) (n : pystr) (m : gmap Z template)
  : bool :=
  bool_decide (∃ i t, m !! i = Some t ∧ name t = n ∧ self ≠ Some i).

(** The first of the keys [l] in [ORDER BY id], if there is one. *)
Definition least (l : list Z) : option Z :=
  foldr (λ k acc, Some (match acc with None => k | Some a => Z.min k a end))
    None l.

(** [SELECT id FROM prompt_templates WHERE id != ? ORDER BY id LIMIT 1] *)
Definition min_id_except (id : Z) (m : gmap Z template) : option Z :=
  least (filter (λ k, k ≠ id) (elements (dom m))).

(** The order of [ORDER BY name] on text: SQLite compares the UTF-8
    bytes, which orders strings as their code points do, a proper prefix
    first. *)
Fixpoint str_leb (a b : pystr) : bool :=
  match a, b with
  | [], _ => true
  | _ :: _, [] => false
  | x :: a', y :: b' =>
      if (x <? y)%N then true
      else if (y <? x)%N then false
      else str_leb a' b'
  end.

Definition by_name : relation (Z * pystr) :=
  λ r1 r2, str_leb r1.2 r2.2 = true.

Global Instance by_name_dec (r1 r2 : Z * pystr) : Decision (by_name r1 r2).
Proof. unfold by_name. apply _. Defined.

(** The rows as [(id, name)], in the order of the index on [name]. *)
Definition rows_by_name (m : gmap Z template) : list (Z * pystr) :=
  merge_sort by_name
    ((λ it : Z * template, (it.1, name it.2)) <$> map_to_list m).

(** Modelled from the spec: [schema.sql] is missing, and SQL leaves the
    order of [SELECT id FROM prompt_templates LIMIT 1] open.  With the
    UNIQUE constraint on [name], SQLite answers this query from the index
    on [name], so the row it returns is the first one in the order of the
    names. *)
Definition first_id (m : gmap Z template) : option Z :=
  fst <$> head (rows_by_name m).

(** What the [sqlite3] module can bind as an INTEGER: a Python [int]
    outside 64 bits raises [OverflowError].  The converter [<int:id>] of
    the routes passes every non-negative integer, of any size. *)
Definition fits_int64 (i : Z) : bool :=
  (- 2 ^ 63 <=? i) && (i <? 2 ^ 63).

(** [create_template]: the JSON body must hold both keys ([None]: key
    absent); [name] and [content] are their values when these are strings.
    Only [sqlite3.IntegrityError] is caught: a string that cannot be bound
    raises [UnicodeEncodeError], which leaves the view. *)
Definition create_template (name content : option pystr) (d : db)
  : response * db :=
  match name, content with
  | Some n, Some c =>
      if negb (encodable n && encodable c) then ((Unhandled, 500), d)
      else if name_taken None n (prompt_templates d) then
        ((Error (py "A template with this name already exists"), 409), d)
      else
        let new_id := next_rowid (prompt_templates d) in
        ((Created (py "Template created") new_id, 201),
         mk_db (word_cache d)
           (<[new_id := mk_template n c]> (prompt_templates d))
           (app_settings d))
  | _, _ => ((Error (py "Name and content are required"), 400), d)
  end.

(** [update_template]: the three parameters are bound first; a string
    that cannot be encoded or an [id] outside 64 bits raises
    ([UnicodeEncodeError], [OverflowError]) and, not being an
    [IntegrityError], leaves the view.  An UPDATE of a row that does not
    exist changes nothing and raises nothing. *)
Definition update_template (id : Z) (name content : option pystr) (d : db)
  : response * db :=
  match name, content with
  | Some n, Some c =>
      if negb (encodable n && encodable c && fits_int64 id) then
        ((Unhandled, 500), d)
      else
        match prompt_templates d !! id with
        | Some _ =>
            if name_taken (Some id) n (prompt_templates d) then
              ((Error (py "A template with this name already exists"), 409),
               d)
            else
              ((Message (py "Template updated"), 200),
               mk_db (word_cache d)
                 (<[id := mk_template n c]> (prompt_templates d))
                 (app_settings d))
        | None => ((Message (py "Template updated"), 200), d)
        end
  | _, _ => ((Error (py "Name and content are required"), 400), d)
  end.

(** [delete_template], lines 249-261.  Nothing is committed before the
    final [db.commit()], so a view that raises leaves the database as it
    was.  The first two queries have no parameter.  When [id] is the
    active key it is equal to a value read from the database, which fits 64
    bits, so the queries of that branch bind it; otherwise the DELETE raises
    [OverflowError] for an [id] outside 64 bits, and nothing catches it. *)
Definition delete_template (id : Z) (d : db) : response * db :=
  if bool_decide (size (prompt_templates d) ≤ 1)%nat then
    ((Error (py "Cannot delete the last template"), 400), d)
  else
    match app_settings d with
    | None => ((Unhandled, 500), d)      (* [fetchone()] is [None] *)
    | Some active_id =>
        if bool_decide (active_id = id) then
          match min_id_except id (prompt_templates d) with
          | None => ((Unhandled, 500), d)  (* [new_active] is [None] *)
          | Some new_active =>
              ((Message (py "Template deleted"), 200),
               mk_db (word_cache d) (delete id (prompt_templates d))
                 (Some new_active))
          end
        else if negb (fits_int64 id) then ((Unhandled, 500), d)
        else
          ((Message (py "Template deleted"), 200),
           mk_db (word_cache d) (delete id (prompt_templates d))
             (Some active_id))
    end.

(** The row the active setting joins to, if any:
    [prompt_templates t JOIN app_settings s ON t.id = s.active_template_id]. *)
Definition active_row (d : db) : option (Z * template) :=
  match app_settings d with
  | Some i =>
      match prompt_templates d !! i with
      | Some t => Some (i, t)
      | None => None
      end
  | None => None
  end.

(** [get_active_template] *)
Definition get_active_template (d : db) : response :=
  match active_row d with
  | Some (i, t) => (TemplateRow i t, 200)
  | None => (Empty, 404)
  end.

(** [get_template]; an [id] outside 64 bits cannot be bound. *)
Definition get_template (id : Z) (d : db) : response :=
  if negb (fits_int64 id) then (Unhandled, 500)
  else
    match prompt_templates d !! id with
    | Some t => (TemplateRow id t, 200)
    | None => (Empty, 404)
    end.

(** [set_active_template]: the only test is that the body has the key
    ['id']; the UPDATE writes the value in the row [id = 1] when that row
    exists. *)
Definition set_active_template (id : option Z) (d : db) : response * db :=
  match id with
  | None => ((Error (py "Template ID is required"), 400), d)
  | Some i =>
      ((Message (py "Active template updated"), 200),
       mk_db (word_cache d) (prompt_templates d)
         (match app_settings d with Some _ => Some i | None => None end))
  end.

(** [initialize_app] after [init_db]: [d] is the database once the schema
    script has run, [word_template] the content of [word_template.md]
    ([None]: [FileNotFoundError]). *)
Definition initialize_app (word_template : option pystr) (d : db) : db :=
  let m :=
    if bool_decide (size (prompt_templates d) = 0)%nat then
      let default_content :=
        match word_template with
        | Some c => c
        | None => py "Please provide a default template."
        end in
      <[next_rowid (prompt_templates d) :=
          mk_template (py "Default") default_content]> (prompt_templates d)
    else prompt_templates d in
  mk_db (word_cache d) m
    (match app_settings d with
     | None => first_id m
     | Some a => Some a
     end).

(** The state after the first start, on a database with empty tables. *)
Definition bootstrapped (word_template : option pystr) : db :=
  initialize_app word_template empty_db.

(** [get_templates]:
    [SELECT id, name FROM prompt_templates ORDER BY name]. *)
Definition get_templates (d : db) : response :=
  (TemplateList (rows_by_name (prompt_templates d)), 200).

(** No two rows have the same name. *)
Definition names_unique (m : gmap Z template) : Prop :=
  ∀ i j ti tj,
    m !! i = Some ti → m !! j = Some tj → name ti = name tj → i = j.

(** The template operations of the claims, as requests. *)
Inductive op :=
  | Create (name content : pystr)
  | Update (id : Z) (name content : pystr)
  | Delete (id : Z)
  | SetActive (id : Z).

Definition request (o : op) (d : db) : response * db :=
  match o with
  | Create n c => create_template (Some n) (Some c) d
  | Update i n c => update_template i (Some n) (Some c) d
  | Delete i => delete_template i d
  | SetActive i => set_active_template (Some i) d
  end.

Definition run (ops : list op) (d : db) : db :=
  foldl (λ d o, snd (request o d)) d ops.

(** The active setting names a row of [prompt_templates]. *)
Definition active_exists (d : db) : Prop :=
  ∃ i, app_settings d = Some i ∧ is_Some (prompt_templates d !! i).

(** Every set-active request of [ops] names a row that exists when the
    request is made. *)
Fixpoint targets_exist (ops : list op) (d : db) : Prop :=
  match ops with
  | [] => True
  | o :: ops' =>
      (∀ i, o = SetActive i → is_Some (prompt_templates d !! i))
      ∧ targets_exist ops' (snd (request o d))
  end.

End Templates.

Module Analysis.
Import PyStr Cleanup Store Templates.

Definition MAX_RETRIES : nat := 3.

(** The f-string of line 109. *)
Definition prompt (word template_content : pystr) : pystr :=
  [0x8bf7; 0x5206; 0x6790; 0x5355; 0x8bcd; 0x20; 0x22] ++ word
    ++ [0x22; 0xff0c; 0x6309; 0x7167; 0x4ee5; 0x4e0b; 0x7ed3; 0x6784;
        0x8f93; 0x51fa; 0xff08; 0x4fdd; 0x6301]
    ++ py "markdown" ++ [0x683c; 0x5f0f; 0xff09; 0xff1a; NL; NL]
    ++ template_content.

Definition key_not_set : pystr := py "OPENAI_API_KEY is not set.".

Definition retries_exhausted : pystr :=
  py "API request failed after " ++ py (pretty MAX_RETRIES)
    ++ py " retries.".

Section Service.

(** [os.getenv('OPENAI_API_KEY')] *)
Variable OPENAI_API_KEY : option pystr.

(** The text-generation service: [chat k p] is the outcome of the request
    number [k] (counted from 0 over the life of the process) sent with the
    user prompt [p]: [Some content] when it answers, [None] when anything
    in the [try] block raises. *)
Variable chat : nat -> pystr -> option pystr.

(** [markdown.markdown(text, extensions=[...])] *)
Variable markdown : pystr -> pystr.

Definition key_missing : bool :=
  match OPENAI_API_KEY with
  | Some k => negb (truthy k)
  | None => true
  end.

(** The [for _ in range(MAX_RETRIES)] loop with [n] rounds left; [calls]
    counts the requests sent to the service so far.  A result is
    [inl text] for [(text, None)] and [inr msg] for [(None, msg)]. *)
Fixpoint attempts (n : nat) (p : pystr) (calls : nat)
  : (pystr + pystr) * nat :=
  match n with
  | O => (inr retries_exhausted, calls)
  | S n' =>
      match chat calls p with
      | Some analysis_text => (inl (cleanup analysis_text), S calls)
      | None => attempts n' p (S calls)     (* log, [time.sleep(1)] *)
      end
  end.

(** [get_word_analysis(word, template_content, force_reanalyze)].  A row
    object is true whenever [fetchone()] found one. *)
Definition get_word_analysis (word template_content : pystr)
    (force_reanalyze : bool) (d : db) (calls : nat)
  : (pystr + pystr) * nat :=
  match (if force_reanalyze then None else word_cache d !! word) with
  | Some cached => (inl cached, calls)
  | None =>
      if key_missing then (inr key_not_set, calls)
      else attempts MAX_RETRIES (prompt word template_content) calls
  end.

(** [SELECT content FROM prompt_templates WHERE id =
     (SELECT active_template_id FROM app_settings WHERE id = 1)] *)
Definition active_content (d : db) : option pystr :=
  match active_row d with
  | Some (_, t) => Some (content t)
  | None => None
  end.

(** [INSERT OR REPLACE INTO word_cache (word, analysis) VALUES (?, ?)] *)
Definition store_analysis (word analysis_text : pystr) (d : db) : db :=
  mk_db (<[word := analysis_text]> (word_cache d)) (prompt_templates d)
    (app_settings d).

(** The [/analyze] route.  Both messages that [get_word_analysis] returns
    are non-empty, so [if error:] holds exactly on [inr]. *)
Definition analyze (word : pystr) (d : db) (calls : nat)
  : response * db * nat :=
  match word_cache d !! word with
  | Some cached => ((Analysis (markdown cached), 200%Z), d, calls)
  | None =>
      match active_content d with
      | None => ((Error (py "No active template found."), 400%Z), d, calls)
      | Some template_content =>
          match get_word_analysis word template_content false d calls with
          | (inr error, calls') => ((Error error, 500%Z), d, calls')
          | (inl analysis_text, calls') =>
              ((Analysis (markdown analysis_text), 200%Z),
               store_analysis word analysis_text d, calls')
          end
      end
  end.

(** The [/reanalyze] route; it answers with the markdown text itself. *)
Definition reanalyze (word : pystr) (d : db) (calls : nat)
  : response * db * nat :=
  match active_content d with
  | None => ((Error (py "No active template found."), 400%Z), d, calls)
  | Some template_content =>
      match get_word_analysis word template_content true d calls with
      | (inr error, calls') => ((Error error, 500%Z), d, calls')
      | (inl analysis_text, calls') =>
          ((Analysis analysis_text, 200%Z),
           store_analysis word analysis_text d, calls')
      end
  end.

End Service.

(** For the runs below: a service that fails on every request, a renderer
    that leaves the text as it is, and the database of the first start with
    one cached word. *)
Definition down : nat -> pystr -> option pystr := λ _ _, None.
Definition plain : pystr -> pystr := λ text, text.
Definition with_cat : db :=
  store_analysis (py "cat") (py "a small feline") (bootstrapped None).

(** A service that fails on its first two requests and then answers with a
    heading line and one line of text. *)
Definition answer : pystr :=
  py "# dog" ++ [NL] ++ py "a loyal animal ".
Definition flaky : nat -> pystr -> option pystr :=
  λ k _, if (k <? 2)%nat then None else Some answer.

End Analysis.

Module Audio.
Import PyStr Store.

Definition AUDIO_CACHE_DIR : pystr := py "static/audio_cache".

(** The files below the working directory, by path. *)
Abbreviation files := (gmap pystr (list Byte.byte)).

Section Service.

Variable OPENAI_API_KEY : option pystr.

(** [str.isalnum] on one code point. *)
Variable isalnum : N -> bool.

(** The speech service: [speech word] is [Some audio] when
    [client.audio.speech.create] returns a response with that content and
    [None] when the call raises. *)
Variable speech : pystr -> option (list Byte.byte).

(** [response.stream_to_file(filepath)] opens the file for writing and
    copies the content into it.  [None]: the copy completes; [Some k]: an
    exception is raised once [k] bytes are in the file. *)
Variable write_fault : option nat.

(** ["".join(c for c in word if c.isalnum()) + '.mp3'] *)
Definition filename (word : pystr) : pystr :=
  filter (λ c, isalnum c = true) word ++ py ".mp3".

(** [os.path.join(AUDIO_CACHE_DIR, filename)] *)
Definition filepath (word : pystr) : pystr :=
  AUDIO_CACHE_DIR ++ py "/" ++ filename word.

(** The [/tts] route; [word] is [request.args.get('word')]. *)
Definition tts (word : option pystr) (fs : files) : response * files :=
  match word with
  | None => ((Error (py "No word provided"), 400%Z), fs)
  | Some w =>
      if negb (truthy w) then ((Error (py "No word provided"), 400%Z), fs)
      else if Analysis.key_missing OPENAI_API_KEY then
        ((Error (py "OpenAI TTS service not configured"), 503%Z), fs)
      else
        match fs !! filepath w with
        | Some data => ((File data, 200%Z), fs)
        | None =>
            match speech w with
            | None => ((Error (py "TTS generation failed"), 500%Z), fs)
            | Some audio =>
                match write_fault with
                | None =>
                    ((File audio, 200%Z), <[filepath w := audio]> fs)
                | Some k =>
                    ((Error (py "TTS generation failed"), 500%Z),
                     <[filepath w := take k audio]> fs)
                end
            end
        end
  end.

End Service.

(** [str.isalnum] on the ASCII characters: digits and letters. *)
Definition ascii_alnum (c : N) : bool :=
  ((48 <=? c) && (c <=? 57)) || ((65 <=? c) && (c <=? 90))
  || ((97 <=? c) && (c <=? 122)).

(** For the runs below: every character kept in the file name, a speech
    service that fails, and one that answers with three bytes. *)
Definition every : N -> bool := λ _, true.
Definition silent : pystr -> option (list Byte.byte) := λ _, None.
Definition three_bytes : pystr -> option (list Byte.byte) :=
  λ _, Some [Byte.x49; Byte.x44; Byte.x33].

End Audio.

(** * Properties *)

Section CleanupFacts.
Import PyStr Cleanup.

Lemma lstrip_length (s : pystr) : (length (lstrip s) <= length s)%nat.
Proof.
  induction s as [|c s IH]; simpl; [lia|].
  destruct (isspace c); simpl; lia.
Qed.

Lemma lstrip_app_nonspace (l t : pystr) (c : N) :
  isspace c = false -> lstrip (l ++ c :: t) = lstrip l ++ c :: t.
Proof.
  intros Hc. induction l as [|a l IH]; simpl.
  - by rewrite Hc.
  - destruct (isspace a); [exact IH | reflexivity].
Qed.

Lemma lstrip_head (s : pystr) :
  lstrip s = [] \/ exists c t, lstrip s = c :: t /\ isspace c = false.
Proof.
  induction s as [|a s IH]; simpl; [by left|].
  destruct (isspace a) eqn:Ha; [exact IH|].
  right. by exists a, s.
Qed.

Lemma lstrip_idem (s : pystr) : lstrip (lstrip s) = lstrip s.
Proof.
  destruct (lstrip_head s) as [-> | (c & t & -> & Hc)]; [done|].
  simpl. by rewrite Hc.
Qed.

Lemma rstrip_cons_nonspace (c : N) (t : pystr) :
  isspace c = false -> rstrip (c :: t) = c :: rstrip t.
Proof.
  intros Hc. unfold rstrip. simpl.
  rewrite (lstrip_app_nonspace _ [] c Hc), rev_app_distr. reflexivity.
Qed.

Lemma rstrip_idem (s : pystr) : rstrip (rstrip s) = rstrip s.
Proof.
  unfold rstrip. by rewrite rev_involutive, lstrip_idem.
Qed.

Lemma strip_idem (s : pystr) : strip (strip s) = strip s.
Proof.
  unfold strip.
  destruct (lstrip_head s) as [-> | (c & t & -> & Hc)]; [done|].
  rewrite (rstrip_cons_nonspace c t Hc). simpl. rewrite Hc.
  rewrite (rstrip_cons_nonspace c _ Hc). by rewrite rstrip_idem.
Qed.

Lemma strip_length (s : pystr) : (length (strip s) <= length s)%nat.
Proof.
  unfold strip, rstrip. rewrite length_rev.
  etransitivity; [apply lstrip_length|].
  rewrite length_rev. apply lstrip_length.
Qed.

(** The equations of [match_here] under a star. *)
Lemma match_here_greedy_cons k r c (s : pystr) :
  match_here (StarGreedy k :: r) (c :: s) =
  if cls_match k c then
    match match_here (StarGreedy k :: r) s with
    | Some rest => Some rest
    | None => match_here r (c :: s)
    end
  else match_here r (c :: s).
Proof. reflexivity. Qed.

Lemma match_here_greedy_nil k r :
  match_here (StarGreedy k :: r) [] = match_here r [].
Proof. reflexivity. Qed.

Lemma match_here_lazy k r (s : pystr) :
  match_here (StarLazy k :: r) s =
  match match_here r s with
  | Some rest => Some rest
  | None =>
      match s with
      | c :: s' =>
          if cls_match k c then match_here (StarLazy k :: r) s' else None
      | [] => None
      end
  end.
Proof. destruct s; reflexivity. Qed.

(** What follows a match is a suffix of the subject, so it is not longer. *)
Lemma match_here_length (r : list item) (s rest : pystr) :
  match_here r s = Some rest -> (length rest <= length s)%nat.
Proof.
  revert s rest. induction r as [|[k|k|k] r IH]; intros s rest.
  - simpl. by intros [= ->].
  - destruct s as [|c s]; simpl; [done|].
    destruct (cls_match k c); [|done].
    intros H%IH. lia.
  - revert rest. induction s as [|c s IHs]; intros rest.
    + rewrite match_here_greedy_nil. apply (IH []).
    + rewrite match_here_greedy_cons.
      destruct (cls_match k c); [|apply (IH (c :: s))].
      destruct (match_here (StarGreedy k :: r) s) as [x|] eqn:E.
      * intros [= ->]. specialize (IHs _ eq_refl). simpl. lia.
      * apply (IH (c :: s)).
  - revert rest. induction s as [|c s IHs]; intros rest;
      rewrite match_here_lazy.
    + destruct (match_here r []) eqn:E; [|done].
      intros [= ->]. by apply IH in E.
    + destruct (match_here r (c :: s)) eqn:E.
      * intros [= ->]. by apply IH in E.
      * destruct (cls_match k c); [|done].
        intros H. specialize (IHs _ H). simpl. lia.
Qed.

(** A pattern that begins with a single character consumes it. *)
Lemma match_here_consumes (k : charclass) (r : list item) (s rest : pystr) :
  match_here (One k :: r) s = Some rest -> (length rest < length s)%nat.
Proof.
  destruct s as [|c s]; simpl; [done|].
  destruct (cls_match k c); [|done].
  intros H%match_here_length. lia.
Qed.

Lemma re_sub_anchored_length (r : list item) (s : pystr) :
  (length (re_sub_anchored r s) <= length s)%nat.
Proof.
  unfold re_sub_anchored.
  destruct (match_here r s) eqn:E; [by apply match_here_length in E | lia].
Qed.

Lemma cleanup_length (t : pystr) : (length (cleanup t) <= length t)%nat.
Proof.
  unfold cleanup.
  etransitivity; [apply strip_length|].
  etransitivity; apply re_sub_anchored_length.
Qed.

Lemma cleanup_stripped (t : pystr) : strip (cleanup t) = cleanup t.
Proof. unfold cleanup. apply strip_idem. Qed.

(** A text on which one of the two patterns matches gets shorter. *)
Lemma cleanup_shrinks (t : pystr) :
  match_here preamble_re t ≠ None \/ match_here heading_re t ≠ None ->
  (length (cleanup t) < length t)%nat.
Proof.
  intros H. unfold cleanup.
  destruct (match_here preamble_re t) as [rest|] eqn:Ep.
  - apply match_here_consumes in Ep as Hlt.
    unfold re_sub_anchored at 2. rewrite Ep.
    pose proof (strip_length (re_sub_anchored heading_re rest)).
    pose proof (re_sub_anchored_length heading_re rest). lia.
  - destruct H as [H|H]; [done|].
    unfold re_sub_anchored at 2. rewrite Ep.
    destruct (match_here heading_re t) as [rest|] eqn:Eh; [|done].
    unfold re_sub_anchored. rewrite Eh.
    apply match_here_consumes in Eh.
    pose proof (strip_length rest). lia.
Qed.

(** Each application removes one heading line. *)
Example cleanup_two_headings :
  cleanup two_headings = py "# B" /\ cleanup (py "# B") = [].
Proof. by vm_compute. Qed.

(** C2, counterexample: on the two heading lines ["# A\n# B"] the cleanup
    returns ["# B"], and the cleanup of ["# B"] is the empty string, so
    applying it twice differs from applying it once. *)
Lemma cleanup_twice_differs :
  cleanup (cleanup two_headings) ≠ cleanup two_headings.
Proof. by vm_compute. Qed.

Lemma greedy_always_matches (k : charclass) (r : list item) :
  (∀ s, is_Some (match_here r s)) ->
  ∀ s, is_Some (match_here (StarGreedy k :: r) s).
Proof.
  intros Hr. induction s as [|c s IH].
  - rewrite match_here_greedy_nil. apply Hr.
  - rewrite match_here_greedy_cons.
    destruct (cls_match k c); [|apply Hr].
    destruct IH as [x ->]. by eexists.
Qed.

(** The heading pattern matches the texts that begin with [#], and no
    other. *)
Lemma heading_matches_iff (s : pystr) :
  match_here heading_re s = None <-> head s ≠ Some 35.
Proof.
  destruct s as [|c s]; [done|].
  change (match_here heading_re (c :: s))
    with (if c =? 35
          then match_here
                 [StarGreedy Space; StarGreedy Dot; StarGreedy Space] s
          else None).
  destruct (N.eqb_spec c 35) as [->|Hc].
  - assert (is_Some (match_here
              [StarGreedy Space; StarGreedy Dot; StarGreedy Space] s))
      as [x ->].
    { do 3 (apply greedy_always_matches; intros ?). by eexists. }
    split; [done|]. simpl. by intros H.
  - split; [|done]. simpl. intros _ [= ->]. done.
Qed.

(** C2, amended: applying the cleanup twice gives the result of applying it
    once exactly when that result begins with neither a match of the
    preamble pattern nor the heading marker [#]; otherwise the second
    application returns a strictly shorter text. *)
Theorem cleanup_idempotent_iff (text : pystr) :
  (cleanup (cleanup text) = cleanup text <->
   match_here preamble_re (cleanup text) = None /\
   match_here heading_re (cleanup text) = None) /\
  (match_here preamble_re (cleanup text) ≠ None \/
   match_here heading_re (cleanup text) ≠ None ->
   (length (cleanup (cleanup text)) < length (cleanup text))%nat) /\
  (match_here heading_re (cleanup text) = None <->
   head (cleanup text) ≠ Some 35).
Proof.
  split; [|split; [apply cleanup_shrinks | apply heading_matches_iff]].
  split.
  - intros Heq.
    destruct (match_here preamble_re (cleanup text)) eqn:Ep.
    + pose proof (cleanup_shrinks (cleanup text)) as Hs.
      rewrite Heq in Hs. rewrite Ep in Hs.
      exfalso. assert (length (cleanup text) < length (cleanup text))%nat
        by (apply Hs; by left). lia.
    + split; [done|].
      destruct (match_here heading_re (cleanup text)) eqn:Eh; [|done].
      pose proof (cleanup_shrinks (cleanup text)) as Hs.
      rewrite Heq in Hs. rewrite Eh in Hs.
      exfalso. assert (length (cleanup text) < length (cleanup text))%nat
        by (apply Hs; by right). lia.
  - intros [Hp Hh]. unfold cleanup at 1. unfold re_sub_anchored.
    rewrite Hp, Hh. apply cleanup_stripped.
Qed.

(** On the two heading lines the second application removes three
    characters more. *)
Lemma cleanup_idempotent_iff_witness :
  (length (cleanup (cleanup two_headings))
   < length (cleanup two_headings))%nat.
Proof.
  destruct (cleanup_idempotent_iff two_headings) as (_ & Hshort & _).
  apply Hshort. right. vm_compute. discriminate.
Defined.

End CleanupFacts.

Section ParserFacts.
Import PyStr Parser.

(** C8: the scenario input, given as its seven lines or as one text, parses
    to the single unit titled ["Title A"] whose only group is [["lineX"]];
    ["line1"] and ["line2"] are in no group. *)
Theorem parse_scenario :
  parse_lines scenario_lines
    = [mk_unit (py "Title A") [[py "lineX"]]] /\
  parse_vocabulary_file (Some scenario_text)
    = [mk_unit (py "Title A") [[py "lineX"]]] /\
  forall u g, u ∈ parse_lines scenario_lines -> g ∈ groups u ->
    (py "line1" ∉ g) /\ (py "line2" ∉ g).
Proof.
  assert (parse_lines scenario_lines
          = [mk_unit (py "Title A") [[py "lineX"]]]) as E
    by (vm_compute; reflexivity).
  split; [exact E|]. split; [vm_compute; reflexivity|].
  intros u g Hu Hg. rewrite E in Hu.
  apply list_elem_of_singleton in Hu as ->. simpl in Hg.
  apply list_elem_of_singleton in Hg as ->.
  split; intros H%list_elem_of_singleton; vm_compute in H; discriminate.
Qed.

Lemma step_unit_marker (st : pstate) (raw : pystr) :
  unit_marker raw = true ->
  step st raw =
  mk_pstate
    (match current_unit st with
     | Some u => units st ++ [u]
     | None => units st
     end)
    (Some (mk_unit [] [])) (current_group st) None.
Proof.
  unfold unit_marker, step. intros H. rewrite H.
  destruct (strip raw); [discriminate H | reflexivity].
Qed.

Lemma step_group_marker (st : pstate) (raw : pystr) :
  group_marker raw = true ->
  step st raw =
  mk_pstate (units st) (flush_group st) (Some []) (previous_line st).
Proof.
  unfold group_marker, step. intros H. rewrite H.
  destruct (strip raw) as [|c l]; [discriminate H|].
  change (py "---") with [45; 45; 45] in H.
  change (py "===") with [61; 61; 61].
  change (py "+++") with [43; 43; 43].
  simpl in H |- *.
  destruct (c =? 45) eqn:Hc; [|discriminate H].
  apply N.eqb_eq in Hc as ->. reflexivity.
Qed.

(** Between two markers of units or groups the open group stays open and
    keeps the lines it has; the open unit keeps its groups, and no unit is
    appended to the result. *)
Lemma step_keeps_open_group (st : pstate) (raw : pystr) t gs g :
  unit_marker raw = false -> group_marker raw = false ->
  current_unit st = Some (mk_unit t gs) -> current_group st = Some g ->
  exists t' extra,
    units (step st raw) = units st /\
    current_unit (step st raw) = Some (mk_unit t' gs) /\
    current_group (step st raw) = Some (g ++ extra).
Proof.
  unfold unit_marker, group_marker, step. intros Hu Hg Hcu Hcg.
  rewrite Hu, Hg.
  destruct (truthy (strip raw)); simpl.
  2:{ exists t, []. by rewrite app_nil_r. }
  destruct (startswith (strip raw) (py "+++")).
  - rewrite Hcu. destruct (previous_line st) as [p|].
    + destruct (truthy p); simpl.
      * exists p, []. by rewrite app_nil_r.
      * exists t, []. by rewrite app_nil_r.
    + exists t, []. by rewrite app_nil_r.
  - simpl. rewrite Hcu, Hcg. simpl.
    destruct (truthy t).
    + by exists t, [strip raw].
    + exists t, []. by rewrite app_nil_r.
Qed.

Lemma run_keeps_open_group (ls : list pystr) (st : pstate) t gs g :
  Forall (λ raw, unit_marker raw = false ∧ group_marker raw = false) ls ->
  current_unit st = Some (mk_unit t gs) -> current_group st = Some g ->
  exists t' extra,
    units (foldl step st ls) = units st /\
    current_unit (foldl step st ls) = Some (mk_unit t' gs) /\
    current_group (foldl step st ls) = Some (g ++ extra).
Proof.
  revert st t g. induction ls as [|raw ls IH]; intros st t g Hall Hcu Hcg.
  - exists t, []. by rewrite app_nil_r.
  - apply Forall_cons in Hall as [[Hu Hg] Hall]. simpl.
    destruct (step_keeps_open_group st raw t gs g Hu Hg Hcu Hcg)
      as (t1 & e1 & Hun & Hcu1 & Hcg1).
    destruct (IH _ _ _ Hall Hcu1 Hcg1) as (t2 & e2 & Hun2 & Hcu2 & Hcg2).
    exists t2, (e1 ++ e2). rewrite Hun2, Hun, Hcu2, Hcg2.
    by rewrite app_assoc.
Qed.

(** C9: when a [===] line is read while the unit [u] and the group [g] are
    open, [u] goes to the result as it is, without [g], and [g] stays the
    open group.  Whatever lines follow up to the next [===] or [---] line,
    [g] (with the lines it has gathered since) is still open; the next
    [---] line, or the end of the input, attaches it to the new unit. *)
Theorem open_group_crosses_unit_boundary
    (st : pstate) (u : unit_) (g : list pystr) (marker dash : pystr)
    (ls : list pystr) :
  current_unit st = Some u -> current_group st = Some g ->
  unit_marker marker = true -> group_marker dash = true ->
  Forall (λ raw, unit_marker raw = false ∧ group_marker raw = false) ls ->
  let st1 := step st marker in
  let st2 := foldl step st1 ls in
  units st1 = units st ++ [u] /\
  current_unit st1 = Some (mk_unit [] []) /\
  current_group st1 = Some g /\
  exists t extra,
    units st2 = units st ++ [u] /\
    current_unit st2 = Some (mk_unit t []) /\
    current_group st2 = Some (g ++ extra) /\
    current_unit (step st2 dash) = Some (mk_unit t [g ++ extra]) /\
    finish st2 = units st ++ [u; mk_unit t [g ++ extra]].
Proof.
  intros Hcu Hcg Hm Hd Hls st1 st2.
  assert (st1 = mk_pstate (units st ++ [u]) (Some (mk_unit [] []))
                  (Some g) None) as E1.
  { unfold st1. rewrite (step_unit_marker st marker Hm), Hcu, Hcg.
    reflexivity. }
  rewrite E1. simpl. do 3 (split; [reflexivity|]).
  destruct (run_keeps_open_group ls st1 [] [] g Hls)
    as (t & extra & Hun & Hcu2 & Hcg2); [by rewrite E1 .. |].
  fold st2 in Hun, Hcu2, Hcg2. rewrite E1 in Hun. simpl in Hun.
  exists t, extra. do 3 (split; [done|]). split.
  - rewrite (step_group_marker st2 dash Hd). simpl.
    unfold flush_group. by rewrite Hcg2, Hcu2.
  - unfold finish, flush_group. rewrite Hcg2, Hcu2, Hun. simpl.
    by rewrite <- app_assoc.
Qed.

(** A run of the statement above: a group opened in unit ["A"] holds
    ["a1"]; the next unit, ["B"], is closed by the end of the input and gets
    the group, now with ["b1"], while ["A"] has none. *)
Lemma open_group_crosses_unit_boundary_witness :
  let st := foldl step initial
              [py "==="; py "A"; py "+++"; py "---"; py "a1"] in
  parse_lines [py "==="; py "A"; py "+++"; py "---"; py "a1";
               py "==="; py "B"; py "+++"; py "b1"]
  = [mk_unit (py "A") []; mk_unit (py "B") [[py "a1"; py "b1"]]] /\
  units (step st (py "===")) = units st ++ [mk_unit (py "A") []] /\
  current_group (step st (py "===")) = Some [py "a1"].
Proof.
  intros st.
  split; [vm_compute; reflexivity|].
  pose proof (open_group_crosses_unit_boundary st (mk_unit (py "A") [])
                [py "a1"] (py "===") (py "---") [py "B"; py "+++"; py "b1"])
    as H.
  destruct H as (H1 & _ & H3 & _).
  - vm_compute; reflexivity.
  - vm_compute; reflexivity.
  - vm_compute; reflexivity.
  - vm_compute; reflexivity.
  - repeat constructor.
  - split; [exact H1 | exact H3].
Defined.

End ParserFacts.

Section TemplateFacts.
Import PyStr Store Templates.

Local Open Scope Z_scope.

Lemma least_spec (l : list Z) :
  match least l with
  | Some k => k ∈ l ∧ ∀ j, j ∈ l → k ≤ j
  | None => l = []
  end.
Proof.
  induction l as [|a l IH]; simpl; [done|].
  destruct (least l) as [k|].
  - destruct IH as [Hk Hmin]. split.
    + destruct (Z.min_spec a k) as [[_ ->]|[_ ->]];
        [apply list_elem_of_here | by apply list_elem_of_further].
    + intros j [->|Hj]%elem_of_cons; [lia|].
      specialize (Hmin j Hj). lia.
  - subst l. split; [apply list_elem_of_here|].
    intros j [->|Hj]%elem_of_cons; [lia|]. by apply elem_of_nil in Hj.
Qed.

(** The replacement chosen by [delete_template] is a row other than the one
    being deleted, and the one with the least key among those. *)
Lemma min_id_except_Some (id k : Z) (m : gmap Z template) :
  min_id_except id m = Some k ->
  k ≠ id ∧ is_Some (m !! k) ∧
  ∀ j, is_Some (m !! j) → j ≠ id → k ≤ j.
Proof.
  unfold min_id_except. intros E.
  pose proof (least_spec (filter (λ k, k ≠ id) (elements (dom m)))) as H.
  rewrite E in H. destruct H as [Hk Hmin].
  apply list_elem_of_filter in Hk as [Hne Hk].
  apply elem_of_elements, elem_of_dom in Hk.
  repeat split; [done..|].
  intros j Hj Hjne. apply Hmin, list_elem_of_filter.
  split; [done|]. by apply elem_of_elements, elem_of_dom.
Qed.

(** With two rows or more there is a replacement. *)
Lemma min_id_except_None (id : Z) (m : gmap Z template) :
  min_id_except id m = None -> (size m ≤ 1)%nat.
Proof.
  unfold min_id_except. intros E.
  pose proof (least_spec (filter (λ k, k ≠ id) (elements (dom m)))) as H.
  rewrite E in H.
  assert (dom m ⊆ {[id]}) as Hsub.
  { intros j Hj. apply elem_of_singleton.
    destruct (decide (j = id)) as [|Hne]; [done|].
    assert (j ∈ filter (λ k, k ≠ id) (elements (dom m))) as Hin
      by (apply list_elem_of_filter; split; [done | by apply elem_of_elements]).
    rewrite H in Hin. by apply elem_of_nil in Hin. }
  apply subseteq_size in Hsub.
  rewrite size_singleton, size_dom in Hsub. exact Hsub.
Qed.

Lemma next_rowid_fresh (m : gmap Z template) : m !! next_rowid m = None.
Proof.
  apply not_elem_of_dom. intros Hin. apply elem_of_elements in Hin.
  unfold next_rowid in Hin.
  assert (∀ l : list Z, ∀ j, j ∈ l → j ≤ foldr Z.max 0 l) as Hmax.
  { induction l as [|a l IH]; intros j Hj; [by apply elem_of_nil in Hj|].
    simpl. apply elem_of_cons in Hj as [->|Hj]; [lia|].
    specialize (IH j Hj). lia. }
  specialize (Hmax _ _ Hin). lia.
Qed.

(** ** The template table is never emptied *)

Lemma request_keeps_a_template (o : op) (d : db) :
  prompt_templates d ≠ ∅ -> prompt_templates (snd (request o d)) ≠ ∅.
Proof.
  intros Hne. destruct o as [n c|i n c|i|i]; simpl.
  - unfold create_template. do 2 (case_match; simpl; try done).
    apply insert_non_empty.
  - unfold update_template. do 3 (case_match; simpl; try done).
    apply insert_non_empty.
  - unfold delete_template. case_bool_decide as Hsz; simpl; [done|].
    assert (prompt_templates (mk_db (word_cache d)
              (delete i (prompt_templates d)) None) ≠ ∅) as Hdel.
    { simpl. apply map_size_non_empty_iff. rewrite map_size_delete.
      destruct (prompt_templates d !! i); simpl; lia. }
    repeat (case_match; simpl; try done).
  - done.
Qed.

Lemma run_keeps_a_template (ops : list op) (d : db) :
  prompt_templates d ≠ ∅ -> prompt_templates (run ops d) ≠ ∅.
Proof.
  revert d. induction ops as [|o ops IH]; intros d Hne; [done|].
  simpl. apply IH. by apply request_keeps_a_template.
Qed.

Lemma initialize_app_has_a_template (wt : option pystr) (d : db) :
  prompt_templates (initialize_app wt d) ≠ ∅.
Proof.
  unfold initialize_app. simpl. case_bool_decide as Hsz.
  - apply insert_non_empty.
  - by apply map_size_non_empty_iff.
Qed.

(** C6: when one template is left, [delete_template] answers with the
    last-template error (status 400) and changes nothing; and no sequence
    of create, update, delete and set-active requests empties the table,
    from that state or from any state [initialize_app] returns. *)
Theorem last_template_is_kept (d : db) (id : Z) :
  size (prompt_templates d) = 1%nat ->
  delete_template id d
    = ((Error (py "Cannot delete the last template"), 400), d) /\
  (forall ops, prompt_templates (run ops d) ≠ ∅) /\
  (forall wt d0 ops,
     prompt_templates (run ops (initialize_app wt d0)) ≠ ∅).
Proof.
  intros Hsz. split; [|split].
  - unfold delete_template. rewrite Hsz. reflexivity.
  - intros ops. apply run_keeps_a_template, map_size_non_empty_iff. lia.
  - intros wt d0 ops.
    apply run_keeps_a_template, initialize_app_has_a_template.
Qed.

(** On the database of the first start, whose only template has key 1. *)
Lemma last_template_is_kept_witness :
  delete_template 1 (bootstrapped None)
    = ((Error (py "Cannot delete the last template"), 400),
       bootstrapped None) /\
  prompt_templates
    (run [Delete 1; Create (py "b") (py "x"); Delete 1; Delete 2]
       (bootstrapped None)) ≠ ∅.
Proof.
  assert (size (prompt_templates (bootstrapped None)) = 1%nat) as Hsz
    by (vm_compute; reflexivity).
  destruct (last_template_is_kept (bootstrapped None) 1 Hsz)
    as (Hdel & Hrun & _).
  split; [exact Hdel | apply Hrun].
Defined.

(** C5: deleting the active template while two or more templates exist
    moves the active setting to the remaining template with the least key
    and deletes the row; afterwards [get_active_template] returns that
    remaining template, which is not the deleted one. *)
Theorem delete_active_repoints (d : db) (id : Z) :
  app_settings d = Some id ->
  (2 ≤ size (prompt_templates d))%nat ->
  exists new_active t,
    prompt_templates d !! new_active = Some t /\
    new_active ≠ id /\
    (forall j, is_Some (prompt_templates d !! j) -> j ≠ id ->
               new_active ≤ j) /\
    delete_template id d
      = ((Message (py "Template deleted"), 200),
         mk_db (word_cache d) (delete id (prompt_templates d))
           (Some new_active)) /\
    prompt_templates (snd (delete_template id d)) !! id = None /\
    prompt_templates (snd (delete_template id d)) !! new_active = Some t /\
    get_active_template (snd (delete_template id d))
      = (TemplateRow new_active t, 200).
Proof.
  intros Hact Hsz.
  destruct (min_id_except id (prompt_templates d)) as [k|] eqn:Emin.
  2:{ apply min_id_except_None in Emin. lia. }
  destruct (min_id_except_Some _ _ _ Emin) as (Hne & [t Ht] & Hleast).
  exists k, t.
  assert (delete_template id d
          = ((Message (py "Template deleted"), 200),
             mk_db (word_cache d) (delete id (prompt_templates d))
               (Some k))) as Edel.
  { unfold delete_template. rewrite bool_decide_eq_false_2 by lia.
    rewrite Hact, bool_decide_eq_true_2 by done. by rewrite Emin. }
  rewrite Edel. simpl.
  assert (delete id (prompt_templates d) !! k = Some t) as Hk
    by (by rewrite lookup_delete_ne).
  repeat split; try done.
  - apply lookup_delete_eq.
  - unfold get_active_template, active_row. simpl. by rewrite Hk.
Qed.

(** Two templates, 1 (active) and 2; template 1 is deleted. *)
Lemma delete_active_repoints_witness :
  let d := run [Create (py "b") (py "x")] (bootstrapped None) in
  app_settings d = Some 1 /\
  exists new_active t,
    new_active ≠ 1 /\
    get_active_template (snd (delete_template 1 d))
      = (TemplateRow new_active t, 200).
Proof.
  intros d.
  assert (app_settings d = Some 1) as Hact by (vm_compute; reflexivity).
  assert (2 ≤ size (prompt_templates d))%nat as Hsz by (vm_compute; lia).
  destruct (delete_active_repoints d 1 Hact Hsz)
    as (k & t & _ & Hne & _ & _ & _ & _ & Hget).
  split; [exact Hact|]. by exists k, t.
Defined.

Example delete_active_of_two :
  let d := run [Create (py "b") (py "x")] (bootstrapped None) in
  get_active_template (snd (delete_template 1 d))
    = (TemplateRow 2 (mk_template (py "b") (py "x")), 200).
Proof. vm_compute. reflexivity. Qed.

(** ** The active setting *)

(** A request other than one that sets a missing template active keeps the
    active setting on an existing row. *)
Lemma request_keeps_active (o : op) (d : db) :
  active_exists d ->
  (forall i, o = SetActive i -> is_Some (prompt_templates d !! i)) ->
  active_exists (snd (request o d)).
Proof.
  intros (a & Ha & Hrow) Hset. destruct o as [n c|i n c|i|i]; simpl.
  - unfold create_template. do 2 (case_match; simpl; [by exists a|]).
    exists a. split; [done|]. simpl.
    apply lookup_insert_is_Some'. by right.
  - unfold update_template. case_match; simpl; [by exists a|].
    destruct (prompt_templates d !! i) eqn:Ei; simpl; [|by exists a].
    case_match; simpl; [by exists a|].
    exists a. split; [done|]. simpl.
    apply lookup_insert_is_Some'. by right.
  - unfold delete_template. case_bool_decide as Hsz; simpl; [by exists a|].
    rewrite Ha. case_bool_decide as Heq.
    + destruct (min_id_except i (prompt_templates d)) as [k|] eqn:Emin;
        simpl; [|by exists a].
      destruct (min_id_except_Some _ _ _ Emin) as (Hne & Hk & _).
      exists k. split; [done|]. simpl. by rewrite lookup_delete_ne.
    + case_match; simpl; [by exists a|].
      exists a. split; [done|]. simpl. by rewrite lookup_delete_ne.
  - exists i. simpl. rewrite Ha. split; [done|]. by apply Hset.
Qed.

Lemma run_keeps_active (ops : list op) (d : db) :
  active_exists d -> targets_exist ops d -> active_exists (run ops d).
Proof.
  revert d. induction ops as [|o ops IH]; intros d Hact Hops; [done|].
  destruct Hops as [Ho Hops]. simpl. apply IH; [|done].
  by apply request_keeps_active.
Qed.

Lemma bootstrapped_active (wt : option pystr) :
  active_exists (bootstrapped wt).
Proof. exists 1. split; [reflexivity|]. vm_compute. eauto. Qed.

(** C1: on the database of the first start the only template has key 1;
    [set_active_template] with the key 2 is accepted, and the active
    setting then names no row: [get_active_template] answers 404. *)
Theorem set_active_accepts_missing_id (wt : option pystr) :
  let d := bootstrapped wt in
  let d' := snd (set_active_template (Some 2) d) in
  active_exists d /\
  fst (set_active_template (Some 2) d)
    = (Message (py "Active template updated"), 200) /\
  app_settings d' = Some 2 /\
  prompt_templates d' !! 2 = None /\
  get_active_template d' = (Empty, 404) /\
  ¬ active_exists d'.
Proof.
  intros d d'.
  assert (app_settings d' = Some 2) as Hset by reflexivity.
  assert (prompt_templates d' !! 2 = None) as Hrow
    by (vm_compute; reflexivity).
  split; [apply bootstrapped_active|].
  split; [reflexivity|]. split; [exact Hset|]. split; [exact Hrow|].
  split.
  - unfold get_active_template, active_row. by rewrite Hset, Hrow.
  - intros (i & Hi & Hsome). rewrite Hset in Hi.
    injection Hi as <-. rewrite Hrow in Hsome. by destruct Hsome.
Qed.

End TemplateFacts.

Section AnalysisFacts.
Import PyStr Cleanup Store Templates Analysis.

Variable OPENAI_API_KEY : option pystr.
Variable chat : nat -> pystr -> option pystr.
Variable markdown : pystr -> pystr.

(** Every request sent by the retry loop is counted, and there are at most
    [MAX_RETRIES] of them. *)
Lemma attempts_calls (n : nat) (p : pystr) (calls : nat) :
  (calls ≤ snd (attempts chat n p calls) ≤ calls + n)%nat.
Proof.
  revert calls. induction n as [|n IH]; intros calls; simpl; [lia|].
  destruct (chat calls p); simpl; [lia|].
  specialize (IH (S calls)). lia.
Qed.

(** The messages of [get_word_analysis] are non-empty: [if error:] holds
    for each of them. *)
Lemma error_is_truthy word tc force (d : db) calls e calls' :
  get_word_analysis OPENAI_API_KEY chat word tc force d calls
    = (inr e, calls') ->
  truthy e = true.
Proof.
  unfold get_word_analysis.
  destruct (if force then None else word_cache d !! word); [done|].
  destruct (key_missing OPENAI_API_KEY); [by intros [= <- _]|].
  generalize MAX_RETRIES, calls.
  induction n as [|n IH]; intros c; simpl; [by intros [= <- _]|].
  destruct (chat c _); [done | apply IH].
Qed.

(** C4: for a word that has a row in [word_cache], [get_word_analysis]
    without forced regeneration returns the stored text and no error, and
    the [/analyze] route answers with that text (rendered by [markdown]);
    in both the count of requests sent to the generation service is left as
    it was and the database is unchanged. *)
Theorem cache_hit_makes_no_call word tc (d : db) calls cached :
  word_cache d !! word = Some cached ->
  get_word_analysis OPENAI_API_KEY chat word tc false d calls
    = (inl cached, calls) /\
  analyze OPENAI_API_KEY chat markdown word d calls
    = ((Analysis (markdown cached), 200%Z), d, calls).
Proof.
  intros Hhit. unfold analyze, get_word_analysis. by rewrite Hhit.
Qed.

(** C10: the cache is consulted before the API key: with no key
    configured, a word that has a row in [word_cache] still gets the stored
    text and no error when regeneration is not forced; the message about
    the missing key comes back only when regeneration is forced or the word
    has no row. *)
Theorem cache_lookup_precedes_key_check word tc (d : db) calls cached :
  key_missing OPENAI_API_KEY = true ->
  word_cache d !! word = Some cached ->
  get_word_analysis OPENAI_API_KEY chat word tc false d calls
    = (inl cached, calls) /\
  analyze OPENAI_API_KEY chat markdown word d calls
    = ((Analysis (markdown cached), 200%Z), d, calls) /\
  (forall force, force = true ∨ word_cache d !! word = None ->
     get_word_analysis OPENAI_API_KEY chat word tc force d calls
       = (inr key_not_set, calls)) /\
  (forall w tc' force d' c c',
     get_word_analysis OPENAI_API_KEY chat w tc' force d' c
       = (inr key_not_set, c') ->
     force = true ∨ word_cache d' !! w = None).
Proof.
  intros Hkey Hhit. split; [|split; [|split]].
  - unfold get_word_analysis. by rewrite Hhit.
  - unfold analyze. by rewrite Hhit.
  - intros force [-> | Hmiss]; unfold get_word_analysis.
    + by rewrite Hkey.
    + rewrite Hmiss, Hkey. by destruct force.
  - intros w tc' force d' c c'. unfold get_word_analysis.
    destruct force; [by left|].
    destruct (word_cache d' !! w); [done | by right].
Qed.

(** C3: when [get_word_analysis] fails, the route that called it, [/analyze]
    or [/reanalyze] (forced regeneration), answers with the same message
    and status 500, and the database, [word_cache] included, is the one it
    started from. *)
Theorem failed_generation_writes_nothing
    word tc (d : db) calls (force : bool) error calls' :
  active_content d = Some tc ->
  get_word_analysis OPENAI_API_KEY chat word tc force d calls
    = (inr error, calls') ->
  (if force then reanalyze OPENAI_API_KEY chat word d calls
   else analyze OPENAI_API_KEY chat markdown word d calls)
    = ((Error error, 500%Z), d, calls') /\
  truthy error = true.
Proof.
  intros Htc Hfail. split; [|by eapply error_is_truthy].
  destruct force.
  - unfold reanalyze. by rewrite Htc, Hfail.
  - unfold analyze.
    destruct (word_cache d !! word) as [cached|] eqn:Ehit.
    + unfold get_word_analysis in Hfail. by rewrite Ehit in Hfail.
    + by rewrite Htc, Hfail.
Qed.

End AnalysisFacts.

Section AnalysisRuns.
Import PyStr Store Templates Analysis.

Lemma cache_hit_makes_no_call_witness :
  get_word_analysis None down (py "cat") (py "t") false with_cat 0
    = (inl (py "a small feline"), 0%nat) /\
  analyze None down plain (py "cat") with_cat 0
    = ((Analysis (py "a small feline"), 200%Z), with_cat, 0%nat).
Proof.
  apply (cache_hit_makes_no_call None down plain (py "cat") (py "t")
           with_cat 0 (py "a small feline")).
  vm_compute. reflexivity.
Defined.

Lemma cache_lookup_precedes_key_check_witness :
  get_word_analysis None down (py "cat") (py "t") false with_cat 0
    = (inl (py "a small feline"), 0%nat) /\
  get_word_analysis None down (py "cat") (py "t") true with_cat 0
    = (inr key_not_set, 0%nat).
Proof.
  destruct (cache_lookup_precedes_key_check None down plain (py "cat")
              (py "t") with_cat 0 (py "a small feline"))
    as (Hhit & _ & Hgen & _).
  - reflexivity.
  - vm_compute. reflexivity.
  - split; [exact Hhit | apply Hgen; by left].
Defined.

(** Three failed requests exhaust the retries; nothing is stored for
    ["dog"], on either route. *)
Lemma failed_generation_writes_nothing_witness :
  analyze (Some (py "sk")) down plain (py "dog") with_cat 0
    = ((Error retries_exhausted, 500%Z), with_cat, 3%nat) /\
  reanalyze (Some (py "sk")) down (py "dog") with_cat 0
    = ((Error retries_exhausted, 500%Z), with_cat, 3%nat).
Proof.
  split.
  - apply (failed_generation_writes_nothing (Some (py "sk")) down plain
             (py "dog") (py "Please provide a default template.")
             with_cat 0 false retries_exhausted 3).
    + vm_compute. reflexivity.
    + vm_compute. reflexivity.
  - apply (failed_generation_writes_nothing (Some (py "sk")) down plain
             (py "dog") (py "Please provide a default template.")
             with_cat 0 true retries_exhausted 3).
    + vm_compute. reflexivity.
    + vm_compute. reflexivity.
Defined.

End AnalysisRuns.

Section AudioFacts.
Import PyStr Store Analysis Audio.

Variable OPENAI_API_KEY : option pystr.
Variable isalnum : N -> bool.
Variable speech : pystr -> option (list Byte.byte).
Variable write_fault : option nat.

(** When the request to the speech service itself raises, no file is
    opened: [tts] answers with the error (status 500) and the files are
    what they were. *)
Lemma failed_synthesis_leaves_no_file (word : pystr) (fs : files) :
  truthy word = true ->
  key_missing OPENAI_API_KEY = false ->
  fs !! filepath isalnum word = None ->
  speech word = None ->
  tts OPENAI_API_KEY isalnum speech write_fault (Some word) fs
    = ((Error (py "TTS generation failed"), 500%Z), fs) /\
  snd (tts OPENAI_API_KEY isalnum speech write_fault (Some word) fs)
    !! filepath isalnum word = None.
Proof.
  intros Hw Hkey Hmiss Hfail.
  assert (tts OPENAI_API_KEY isalnum speech write_fault (Some word) fs
          = ((Error (py "TTS generation failed"), 500%Z), fs)) as E.
  { unfold tts. by rewrite Hw, Hkey, Hmiss, Hfail. }
  by rewrite E.
Qed.

(** When the service answers and the copy completes, the file holds the
    whole audio and is what later requests are served. *)
Lemma synthesis_stores_the_audio (word : pystr) (fs : files) audio :
  truthy word = true ->
  key_missing OPENAI_API_KEY = false ->
  fs !! filepath isalnum word = None ->
  speech word = Some audio ->
  write_fault = None ->
  tts OPENAI_API_KEY isalnum speech write_fault (Some word) fs
    = ((File audio, 200%Z), <[filepath isalnum word := audio]> fs).
Proof.
  intros Hw Hkey Hmiss Hok Hwr. unfold tts.
  by rewrite Hw, Hkey, Hmiss, Hok, Hwr.
Qed.

(** C7, the code on a failure after the file was opened: for a word with
    no file in the audio cache, when the speech service answers but the
    copy of its answer into the cache file is interrupted after [k] bytes,
    [tts] answers with the error (status 500) and leaves the bytes written
    so far, none when [k] is 0, at the cache path of the word; the next
    request for the word finds that file and is served it with status 200,
    whatever the service would answer.  Nothing in the [except] branch
    removes the file. *)
Theorem interrupted_copy_leaves_partial_file
    (word : pystr) (fs : files) audio (k : nat)
    (speech' : pystr -> option (list Byte.byte)) (fault' : option nat) :
  truthy word = true ->
  key_missing OPENAI_API_KEY = false ->
  fs !! filepath isalnum word = None ->
  speech word = Some audio ->
  write_fault = Some k ->
  let fs' := <[filepath isalnum word := take k audio]> fs in
  tts OPENAI_API_KEY isalnum speech write_fault (Some word) fs
    = ((Error (py "TTS generation failed"), 500%Z), fs') /\
  fs' !! filepath isalnum word = Some (take k audio) /\
  tts OPENAI_API_KEY isalnum speech' fault' (Some word) fs'
    = ((File (take k audio), 200%Z), fs').
Proof.
  intros Hw Hkey Hmiss Hok Hwr fs'.
  assert (fs' !! filepath isalnum word = Some (take k audio)) as Hfile
    by apply lookup_insert_eq.
  split; [|split; [exact Hfile|]].
  - unfold tts. by rewrite Hw, Hkey, Hmiss, Hok, Hwr.
  - unfold tts. by rewrite Hw, Hkey, Hfile.
Qed.

End AudioFacts.

Section AudioRuns.
Import PyStr Store Audio.

Lemma failed_synthesis_leaves_no_file_witness :
  tts (Some (py "sk")) every silent None (Some (py "cat")) ∅
    = ((Error (py "TTS generation failed"), 500%Z), ∅) /\
  (∅ : files) !! filepath every (py "cat") = None.
Proof.
  destruct (failed_synthesis_leaves_no_file (Some (py "sk")) every silent
              None (py "cat") ∅) as [Hresp Hfile]; try reflexivity.
  split; [exact Hresp|]. rewrite Hresp in Hfile. exact Hfile.
Defined.

(** The copy into the cache file is part of the [try] block as well: when
    it is interrupted, the route answers with the same error and the bytes
    copied so far stay at the cache path. *)
Example interrupted_copy_keeps_the_bytes_written :
  tts (Some (py "sk")) every three_bytes (Some 1%nat) (Some (py "cat")) ∅
    = ((Error (py "TTS generation failed"), 500%Z),
       {[filepath every (py "cat") := [Byte.x49]]}).
Proof. reflexivity. Qed.

(** The copy stops before the first byte: an empty file is left for
    ["cat"], and a later request is answered with it although the service,
    now down, was not asked. *)
Lemma interrupted_copy_leaves_partial_file_witness :
  let fs' : files := {[filepath ascii_alnum (py "cat") := []]} in
  tts (Some (py "sk")) ascii_alnum three_bytes (Some 0%nat)
    (Some (py "cat")) ∅
    = ((Error (py "TTS generation failed"), 500%Z), fs') /\
  tts (Some (py "sk")) ascii_alnum silent None (Some (py "cat")) fs'
    = ((File [], 200%Z), fs').
Proof.
  intros fs'.
  destruct (interrupted_copy_leaves_partial_file (Some (py "sk"))
              ascii_alnum three_bytes (Some 0%nat) (py "cat") ∅
              [Byte.x49; Byte.x44; Byte.x33] 0 silent None)
    as (H1 & _ & H3); try reflexivity.
  split; [exact H1 | exact H3].
Defined.

End AudioRuns.

Section ParserOutline.
Import PyStr Parser.

Lemma step_blank (st : pstate) (raw : pystr) :
  strip raw = [] -> step st raw = st.
Proof. intros H. unfold step. by rewrite H. Qed.

Lemma step_strip (st : pstate) (raw : pystr) :
  step st (strip raw) = step st raw.
Proof. unfold step. by rewrite strip_idem. Qed.

Lemma foldl_step_normalize (ls : list pystr) (st : pstate) :
  foldl step st (filter (λ l, truthy l = true) (strip <$> ls))
  = foldl step st ls.
Proof.
  revert st. induction ls as [|raw ls IH]; intros st; [done|].
  rewrite fmap_cons, filter_cons. simpl.
  destruct (decide (truthy (strip raw) = true)) as [Ht|Hf].
  - simpl. by rewrite step_strip.
  - rewrite (step_blank st raw); [apply IH|].
    destruct (strip raw); [done | by destruct Hf].
Qed.

(** X1: the outline depends on the stripped, non-blank lines only: blank
    lines and the white space around a line change nothing. *)
Theorem parse_lines_ignores_blanks_and_padding (ls : list pystr) :
  parse_lines (filter (λ l, truthy l = true) (strip <$> ls))
  = parse_lines ls.
Proof. unfold parse_lines. by rewrite foldl_step_normalize. Qed.

(** The units a state stands for: those closed so far and the open one. *)
Lemma finish_length (st : pstate) :
  length (finish st)
  = (length (units st)
     + match current_unit st with Some _ => 1 | None => 0 end)%nat.
Proof.
  unfold finish, flush_group.
  destruct (current_group st), (current_unit st);
    rewrite ?length_app; simpl; lia.
Qed.

Lemma step_counts_units (st : pstate) (raw : pystr) :
  length (finish (step st raw))
  = (length (finish st) + if unit_marker raw then 1 else 0)%nat.
Proof.
  rewrite !finish_length. unfold unit_marker, step, flush_group.
  destruct st as [us cu cg pl]; simpl.
  destruct (truthy (strip raw)) eqn:Ht; simpl.
  2:{ assert (strip raw = []) as ->
        by (destruct (strip raw); [done | discriminate Ht]).
      change (startswith [] (py "===")) with false. destruct cu; lia. }
  destruct (startswith (strip raw) (py "===")); simpl.
  { destruct cu; rewrite ?length_app; simpl; lia. }
  destruct (startswith (strip raw) (py "+++")).
  { destruct cu, pl as [p|]; simpl; try lia.
    destruct (truthy p); simpl; lia. }
  destruct (startswith (strip raw) (py "---")); simpl;
    destruct cg, cu; simpl; lia.
Qed.

Lemma run_counts_units (ls : list pystr) (st : pstate) :
  length (finish (foldl step st ls))
  = (length (finish st)
     + length (filter (λ raw, unit_marker raw = true) ls))%nat.
Proof.
  revert st. induction ls as [|raw ls IH]; intros st; simpl; [lia|].
  rewrite IH, step_counts_units, filter_cons.
  destruct (decide (unit_marker raw = true)) as [->|Hf]; simpl; [lia|].
  destruct (unit_marker raw); [done | lia].
Qed.

(** X2: the outline has one unit per [===] line, whatever else the file
    holds; a file without such a line gives the empty outline. *)
Theorem one_unit_per_marker (ls : list pystr) :
  length (parse_lines ls)
  = length (filter (λ raw, unit_marker raw = true) ls).
Proof. unfold parse_lines. by rewrite run_counts_units. Qed.

(** ** Where titles and group lines come from *)

Section Provenance.

Variable P : pystr -> Prop.


Lemma flush_group_from (st : pstate) u :
  state_from P st -> flush_group st = Some u -> unit_from P u.
Proof.
  intros (_ & Hcu & Hcg & _). unfold flush_group.
  destruct (current_group st) as [g|], (current_unit st) as [cu|];
    try (intros [= <-]; by apply Hcu); try done.
  intros [= <-]. destruct (Hcu cu eq_refl) as [Ht Hg].
  split; [exact Ht|]. simpl. apply Forall_app. split; [done|].
  apply Forall_singleton. by apply Hcg.
Qed.

Lemma step_from (st : pstate) (raw : pystr) :
  (content_line raw = true -> P (strip raw)) ->
  state_from P st -> state_from P (step st raw).
Proof.
  intros Hraw Hst. pose proof Hst as (Hu & Hcu & Hcg & Hp).
  unfold content_line in Hraw. unfold step.
  destruct (truthy (strip raw)); simpl; [|done].
  destruct (startswith (strip raw) (py "===")); simpl.
  { split; [|split; [|split]]; simpl.
    - destruct (current_unit st) as [u|]; [|done].
      apply Forall_app. split; [done|]. apply Forall_singleton. by apply Hcu.
    - intros u [= <-]. split; [by left | constructor].
    - done.
    - done. }
  destruct (startswith (strip raw) (py "+++")); simpl.
  { destruct (current_unit st) as [u|] eqn:Eu; [|done].
    destruct (previous_line st) as [p|] eqn:Ep; [|done].
    destruct (truthy p); [|done].
    split; [done|]. split; [|split]; simpl; [|done|done].
    intros u' [= <-]. split; simpl; [right; by apply Hp|].
    by destruct (Hcu u eq_refl). }
  destruct (startswith (strip raw) (py "---")); simpl.
  { split; [done|]. split; [|split]; simpl.
    - intros u. by apply flush_group_from.
    - by intros g [= <-].
    - done. }
  split; [done|]. split; [done|]. split; simpl.
  - intros g.
    destruct (current_group st) as [g0|] eqn:Eg; [|done].
    destruct (current_unit st) as [u|]; [|intros [= <-]; by apply Hcg].
    destruct (truthy (title u)); intros [= <-]; [|by apply Hcg].
    apply Forall_app. split; [by apply Hcg|].
    apply Forall_singleton. by apply Hraw.
  - intros p [= <-]. by apply Hraw.
Qed.

Lemma run_from (ls : list pystr) (st : pstate) :
  Forall (λ raw, content_line raw = true → P (strip raw)) ls ->
  state_from P st -> state_from P (foldl step st ls).
Proof.
  revert st. induction ls as [|raw ls IH]; intros st Hls Hst; [done|].
  apply Forall_cons in Hls as [Hraw Hls]. simpl.
  apply IH; [done|]. by apply step_from.
Qed.

Lemma finish_from (st : pstate) :
  state_from P st -> Forall (unit_from P) (finish st).
Proof.
  intros Hst. pose proof Hst as (Hu & _). unfold finish.
  destruct (flush_group st) as [u|] eqn:E; [|done].
  apply Forall_app. split; [done|].
  apply Forall_singleton. by eapply flush_group_from.
Qed.

End Provenance.

(** X3: nothing in the outline is invented: the title of a unit is empty
    or is a content line of the input, stripped, and so is every line of
    every group; marker lines and blank lines are never stored. *)
Theorem outline_comes_from_content_lines (ls : list pystr) (u : unit_) :
  u ∈ parse_lines ls ->
  (title u = [] ∨
   ∃ raw, raw ∈ ls ∧ content_line raw = true ∧ title u = strip raw) ∧
  ∀ g l, g ∈ groups u → l ∈ g →
    ∃ raw, raw ∈ ls ∧ content_line raw = true ∧ l = strip raw.
Proof.
  intros Hu.
  pose (P := λ l : pystr,
          ∃ raw, raw ∈ ls ∧ content_line raw = true ∧ l = strip raw).
  assert (Forall (unit_from P) (parse_lines ls)) as Hall.
  { apply finish_from, run_from.
    - apply Forall_forall. intros raw Hin Hc. by exists raw.
    - split; [constructor|]. repeat split; done. }
  rewrite Forall_forall in Hall. destruct (Hall u Hu) as [Ht Hg].
  split; [exact Ht|].
  intros g l Hgin Hl. rewrite Forall_forall in Hg.
  specialize (Hg g Hgin). rewrite Forall_forall in Hg. by apply Hg.
Qed.

End ParserOutline.

Section ReadlinesFacts.
Import PyStr Parser.

Lemma elem_of_rev {A} (x : A) (l : list A) : x ∈ rev l ↔ x ∈ l.
Proof. rewrite !list_elem_of_In. symmetry. apply in_rev. Qed.

Lemma split_lines_concat (s cur : pystr) :
  concat (split_lines cur s) = rev cur ++ s.
Proof.
  revert cur. induction s as [|c s IH]; intros cur; simpl.
  - destruct cur; simpl; by rewrite ?app_nil_r.
  - destruct (c =? NL); simpl; rewrite IH; simpl;
      by rewrite <- app_assoc.
Qed.

(** The lines are the bodies between the newlines, each with the newline
    that ends it, and what follows the last newline when that is not
    empty. *)
Lemma split_lines_exact (s cur : pystr) :
  NL ∉ cur ->
  ∃ bodies last,
    split_lines cur s = lines_of bodies last ∧
    Forall (λ b, NL ∉ b) bodies ∧ (NL ∉ last) ∧
    concat (lines_of bodies last) = rev cur ++ s.
Proof.
  revert cur. induction s as [|c s IH]; intros cur Hcur; simpl.
  - exists [], (rev cur). split; [|split; [constructor|split]].
    + unfold lines_of. simpl. destruct cur as [|a cur]; [done|].
      simpl. by destruct (rev cur).
    + by rewrite elem_of_rev.
    + unfold lines_of. simpl. destruct (rev cur); simpl;
        by rewrite ?app_nil_r.
  - destruct (c =? NL) eqn:Ec.
    + apply N.eqb_eq in Ec as ->.
      destruct (IH [] (not_elem_of_nil _)) as (bodies & last & E & Hb & Hl & Hc).
      exists (rev cur :: bodies), last. rewrite E.
      split; [done|]. split; [constructor; [by rewrite elem_of_rev | done]|].
      split; [done|].
      change (concat (lines_of (rev cur :: bodies) last))
        with ((rev cur ++ [NL]) ++ concat (lines_of bodies last)).
      rewrite Hc. simpl. by rewrite <- app_assoc.
    + apply N.eqb_neq in Ec.
      destruct (IH (c :: cur)) as (bodies & last & E & Hb & Hl & Hc).
      { apply not_elem_of_cons. split; [congruence | done]. }
      exists bodies, last. rewrite E. do 3 (split; [done|]).
      rewrite Hc. simpl. by rewrite <- app_assoc.
Qed.

Lemma split_lines_body (b cur rest : pystr) :
  NL ∉ b -> split_lines cur (b ++ rest) = split_lines (rev b ++ cur) rest.
Proof.
  revert cur. induction b as [|x b IH]; intros cur Hb; [done|].
  apply not_elem_of_cons in Hb as [Hx Hb]. simpl.
  destruct (x =? NL) eqn:Ex; [apply N.eqb_eq in Ex; congruence|].
  rewrite IH by done. by rewrite <- app_assoc.
Qed.

(** Splitting what was joined gives the lines back. *)
Lemma split_lines_join (bodies : list pystr) (last : pystr) :
  Forall (λ b, NL ∉ b) bodies -> NL ∉ last ->
  split_lines [] (concat (lines_of bodies last)) = lines_of bodies last.
Proof.
  intros Hb Hl. induction Hb as [|b bodies Hb _ IH].
  - unfold lines_of. simpl. destruct last as [|a last]; [done|].
    change (concat [a :: last]) with ((a :: last) ++ []).
    rewrite split_lines_body by done. simpl.
    rewrite app_nil_r.
    destruct (rev last ++ [a]) eqn:E;
      [by destruct (rev last) |].
    rewrite <- E. f_equal.
    change (rev last ++ [a]) with (rev (a :: last)) at 1.
    by rewrite rev_involutive.
  - change (concat (lines_of (b :: bodies) last))
      with ((b ++ [NL]) ++ concat (lines_of bodies last)).
    change (lines_of (b :: bodies) last)
      with ((b ++ [NL]) :: lines_of bodies last).
    rewrite <- app_assoc, split_lines_body by done.
    change (split_lines (rev b ++ []) ([NL] ++ ?x))
      with (rev (NL :: rev b ++ []) :: split_lines [] x).
    rewrite IH. f_equal. simpl.
    by rewrite app_nil_r, rev_involutive.
Qed.

Lemma universal_newlines_no_cr (n : nat) (s : pystr) :
  (length s ≤ n)%nat -> 13 ∉ universal_newlines s.
Proof.
  revert s. induction n as [|n IH]; intros s Hlen.
  - destruct s; [apply not_elem_of_nil | simpl in Hlen; lia].
  - destruct s as [|c s]; [apply not_elem_of_nil|]. simpl in *.
    destruct (c =? 13) eqn:Ec.
    + apply not_elem_of_cons. split; [done|].
      destruct s as [|d s]; [apply not_elem_of_nil|].
      destruct (d =? NL); apply IH; simpl in *; lia.
    + apply N.eqb_neq in Ec. apply not_elem_of_cons.
      split; [congruence | apply IH; lia].
Qed.

Lemma universal_newlines_id (s : pystr) :
  13 ∉ s -> universal_newlines s = s.
Proof.
  induction s as [|c s IH]; [done|]. intros [Hc Hs]%not_elem_of_cons.
  simpl. destruct (c =? 13) eqn:Ec.
  - apply N.eqb_eq in Ec. congruence.
  - by rewrite IH.
Qed.

(** X4: [readlines] splits the text exactly at its newlines and loses
    nothing.  The lines put together again are the text with its line ends
    read as newlines (the text itself when it has no carriage return), and
    no carriage return is left.  Every line but the last is a body without
    newline followed by one newline; the last line is such a line too or,
    when the text does not end in a newline, the non-empty rest.  And
    reading the text made by joining such lines gives those lines back. *)
Theorem readlines_keeps_the_text (text : pystr) :
  concat (readlines text) = universal_newlines text /\
  (13 ∉ universal_newlines text) /\
  (13 ∉ text -> concat (readlines text) = text) /\
  (∃ bodies last,
     readlines text = lines_of bodies last ∧
     Forall (λ b, NL ∉ b) bodies ∧ (NL ∉ last)) /\
  (∀ bodies last,
     Forall (λ b, NL ∉ b) bodies → NL ∉ last →
     13 ∉ concat (lines_of bodies last) →
     readlines (concat (lines_of bodies last)) = lines_of bodies last).
Proof.
  unfold readlines. rewrite split_lines_concat. simpl.
  split; [done|]. split; [by eapply universal_newlines_no_cr|].
  split; [apply universal_newlines_id|]. split.
  - destruct (split_lines_exact (universal_newlines text) []
                (not_elem_of_nil _)) as (bodies & last & E & Hb & Hl & _).
    by exists bodies, last.
  - intros bodies last Hb Hl Hcr.
    rewrite universal_newlines_id by done. by apply split_lines_join.
Qed.

End ReadlinesFacts.

Section CleanupShape.
Import PyStr Cleanup.

Lemma lstrip_split (s : pystr) :
  ∃ pre, s = pre ++ lstrip s ∧ Forall (λ c, isspace c = true) pre.
Proof.
  induction s as [|c s (pre & IH & Hpre)]; simpl.
  - exists []. split; [done | constructor].
  - destruct (isspace c) eqn:Ec.
    + exists (c :: pre). split; [simpl; congruence | by constructor].
    + exists []. split; [done | constructor].
Qed.

Lemma rstrip_split (s : pystr) :
  ∃ post, s = rstrip s ++ post ∧ Forall (λ c, isspace c = true) post.
Proof.
  unfold rstrip. destruct (lstrip_split (rev s)) as (pre & E & Hpre).
  exists (rev pre). split.
  - rewrite <- rev_app_distr, <- E. by rewrite rev_involutive.
  - apply Forall_forall. intros c Hc. rewrite elem_of_rev in Hc.
    rewrite Forall_forall in Hpre. by apply Hpre.
Qed.

Lemma match_here_suffix (r : list item) (s rest : pystr) :
  match_here r s = Some rest -> ∃ pre, s = pre ++ rest.
Proof.
  revert s rest. induction r as [|[k|k|k] r IH]; intros s rest.
  - simpl. intros [= ->]. by exists [].
  - destruct s as [|c s]; simpl; [done|].
    destruct (cls_match k c); [|done].
    intros (pre & ->)%IH. by exists (c :: pre).
  - revert rest. induction s as [|c s IHs]; intros rest.
    + rewrite match_here_greedy_nil. apply IH.
    + rewrite match_here_greedy_cons.
      destruct (cls_match k c); [|apply IH].
      destruct (match_here (StarGreedy k :: r) s) as [x|] eqn:E; [|apply IH].
      intros [= ->]. destruct (IHs _ eq_refl) as (pre & ->).
      by exists (c :: pre).
  - revert rest. induction s as [|c s IHs]; intros rest;
      rewrite match_here_lazy.
    + destruct (match_here r []) eqn:E; [|done].
      intros [= ->]. by apply IH.
    + destruct (match_here r (c :: s)) eqn:E.
      * intros [= ->]. by apply IH.
      * destruct (cls_match k c); [|done].
        intros (pre & ->)%IHs. by exists (c :: pre).
Qed.

Lemma re_sub_anchored_suffix (r : list item) (s : pystr) :
  ∃ pre, s = pre ++ re_sub_anchored r s.
Proof.
  unfold re_sub_anchored. destruct (match_here r s) eqn:E.
  - by apply match_here_suffix in E.
  - by exists [].
Qed.

(** X5: the cleanup only cuts at the two ends: its result is one piece of
    the generated text, nothing inside is changed or dropped; what is cut
    at the end is white space. *)
Theorem cleanup_cuts_the_ends_only (text : pystr) :
  ∃ pre post,
    text = pre ++ cleanup text ++ post ∧
    Forall (λ c, isspace c = true) post.
Proof.
  unfold cleanup, strip.
  destruct (re_sub_anchored_suffix preamble_re text) as (p1 & E1).
  destruct (re_sub_anchored_suffix heading_re
              (re_sub_anchored preamble_re text)) as (p2 & E2).
  set (t2 := re_sub_anchored heading_re _) in *.
  destruct (lstrip_split t2) as (p3 & E3 & _).
  destruct (rstrip_split (lstrip t2)) as (post & E4 & Hpost).
  exists (p1 ++ p2 ++ p3), post. split; [|done].
  rewrite <- !app_assoc, <- E4, <- E3, <- E2. exact E1.
Qed.

Lemma strip_first (s : pystr) (c : N) :
  head (strip s) = Some c -> isspace c = false.
Proof.
  unfold strip.
  destruct (lstrip_head s) as [-> | (a & t & -> & Ha)]; [done|].
  rewrite (rstrip_cons_nonspace a t Ha). simpl. by intros [= <-].
Qed.

Lemma rstrip_last (s : pystr) (c : N) :
  last (rstrip s) = Some c -> isspace c = false.
Proof.
  unfold rstrip.
  destruct (lstrip_head (rev s)) as [-> | (a & t & -> & Ha)]; [done|].
  simpl. rewrite last_snoc. by intros [= <-].
Qed.

(** X6: a cleaned text neither begins nor ends with white space. *)
Theorem cleanup_has_no_outer_space (text : pystr) (c : N) :
  head (cleanup text) = Some c ∨ last (cleanup text) = Some c ->
  isspace c = false.
Proof.
  unfold cleanup. intros [H|H].
  - by eapply strip_first.
  - by eapply rstrip_last.
Qed.

(** ** The heading pattern in closed form *)

Lemma skip_space (s : pystr) : skip Space s = lstrip s.
Proof. induction s as [|c s IH]; simpl; [done|]. by rewrite IH. Qed.

(** A greedy star in front of a pattern that cannot fail takes all it can
    and never gives anything back. *)
Lemma greedy_takes_all (k : charclass) (r : list item) :
  (∀ s, is_Some (match_here r s)) ->
  ∀ s, match_here (StarGreedy k :: r) s = match_here r (skip k s).
Proof.
  intros Hr. induction s as [|c s IH].
  - by rewrite match_here_greedy_nil.
  - rewrite match_here_greedy_cons.
    change (skip k (c :: s)) with (if cls_match k c then skip k s else c :: s).
    destruct (cls_match k c); [|done].
    rewrite IH. by destruct (Hr (skip k s)) as [x ->].
Qed.

Lemma heading_tail (s : pystr) :
  match_here [StarGreedy Space; StarGreedy Dot; StarGreedy Space] s
  = Some (lstrip (skip Dot (lstrip s))).
Proof.
  assert (∀ s, match_here [StarGreedy Space] s = Some (lstrip s)) as H1.
  { intros x. rewrite greedy_takes_all; [|by eexists].
    by rewrite skip_space. }
  assert (∀ s, match_here [StarGreedy Dot; StarGreedy Space] s
               = Some (lstrip (skip Dot s))) as H2.
  { intros x. rewrite greedy_takes_all; [apply H1|].
    intros y. rewrite H1. by eexists. }
  rewrite greedy_takes_all; [|intros y; rewrite H2; by eexists].
  by rewrite H2, skip_space.
Qed.

Lemma lstrip_pad (pad s : pystr) :
  Forall (λ c, isspace c = true) pad -> lstrip (pad ++ s) = lstrip s.
Proof.
  induction 1 as [|c pad Hc _ IH]; [done|]. simpl. by rewrite Hc.
Qed.

Lemma skip_dot_line (line rest : pystr) :
  NL ∉ line -> skip Dot (line ++ NL :: rest) = NL :: rest.
Proof.
  induction line as [|c line IH]; [done|].
  intros [Hc Hl]%not_elem_of_cons. simpl.
  destruct (c =? NL) eqn:Ec; [apply N.eqb_eq in Ec; congruence|].
  simpl. by apply IH.
Qed.

Lemma skip_dot_end (line : pystr) : NL ∉ line -> skip Dot line = [].
Proof.
  induction line as [|c line IH]; [done|].
  intros [Hc Hl]%not_elem_of_cons. simpl.
  destruct (c =? NL) eqn:Ec; [apply N.eqb_eq in Ec; congruence|].
  simpl. by apply IH.
Qed.

(** X7: a text that begins with [#] loses the marker, the white space after
    it, line ends included, the first line that then has text, and the
    white space after that line; what is returned is the rest, stripped.
    So ["# Title\nbody"] gives ["body"], and after a marker with nothing
    on its line the next line with text goes as well.  With no further line
    the result is empty. *)
Theorem cleanup_removes_heading_line (pad line body : pystr) (c : N) :
  Forall (λ c, isspace c = true) pad ->
  isspace c = false -> NL ∉ c :: line ->
  cleanup (35 :: pad ++ (c :: line) ++ NL :: body) = strip body /\
  cleanup (35 :: pad ++ c :: line) = [].
Proof.
  intros Hpad Hc Hline. unfold cleanup.
  assert (∀ s, re_sub_anchored preamble_re (35 :: s) = 35 :: s) as Hp
    by reflexivity.
  assert (∀ s, re_sub_anchored heading_re (35 :: s)
               = lstrip (skip Dot (lstrip s))) as Hh.
  { intros s. unfold re_sub_anchored, heading_re.
    change (match_here (One (Lit 35) :: ?r) (35 :: s))
      with (match_here r s).
    by rewrite heading_tail. }
  rewrite !Hp, !Hh. split.
  - rewrite (lstrip_pad pad _ Hpad).
    change (lstrip ((c :: line) ++ NL :: body))
      with (if isspace c then lstrip (line ++ NL :: body)
            else (c :: line) ++ NL :: body).
    rewrite Hc, (skip_dot_line _ _ Hline).
    change (lstrip (NL :: body)) with (lstrip body).
    unfold strip. by rewrite lstrip_idem.
  - rewrite (lstrip_pad pad _ Hpad).
    change (lstrip (c :: line))
      with (if isspace c then lstrip line else c :: line).
    by rewrite Hc, (skip_dot_end _ Hline).
Qed.

(** ** The preamble pattern *)

Lemma match_here_lits (p : pystr) (r : list item) (s : pystr) :
  match_here (lits p ++ r) (p ++ s) = match_here r s.
Proof.
  induction p as [|a p IH]; [done|].
  change (match_here (lits (a :: p) ++ r) ((a :: p) ++ s))
    with (if a =? a then match_here (lits p ++ r) (p ++ s) else None).
  by rewrite N.eqb_refl.
Qed.

Lemma lazy_name (name rest : pystr) :
  NL ∉ name -> 0x7684 ∉ name ->
  match_here (StarLazy Dot :: after_name) (name ++ preamble_tail ++ rest)
  = Some (lstrip rest).
Proof.
  intros Hnl Hde. induction name as [|c name IH].
  - change ([] ++ preamble_tail ++ rest) with (preamble_tail ++ rest).
    rewrite match_here_lazy.
    assert (match_here after_name (preamble_tail ++ rest)
            = Some (lstrip rest)) as ->; [|done].
    unfold after_name.
    rewrite match_here_lits, greedy_takes_all by (by eexists).
    by rewrite skip_space.
  - apply not_elem_of_cons in Hnl as [Hc1 Hnl].
    apply not_elem_of_cons in Hde as [Hc2 Hde].
    rewrite match_here_lazy.
    change (match_here after_name ((c :: name) ++ preamble_tail ++ rest))
      with (if c =? 0x7684
            then match_here (lits [0x8bcd; 0x6e90; 0x5206; 0x6790; 0xff1a]
                               ++ [StarGreedy Space])
                   (name ++ preamble_tail ++ rest)
            else None).
    destruct (c =? 0x7684) eqn:E1; [apply N.eqb_eq in E1; congruence|].
    simpl app. cbv beta iota.
    change (cls_match Dot c) with (negb (c =? NL)).
    destruct (c =? NL) eqn:E2; [apply N.eqb_eq in E2; congruence|].
    simpl. by apply IH.
Qed.

Lemma match_here_lits_inv (p : pystr) (r : list item) (s x : pystr) :
  match_here (lits p ++ r) s = Some x ->
  ∃ s', s = p ++ s' ∧ match_here r s' = Some x.
Proof.
  revert s. induction p as [|a p IH]; intros s.
  - intros H. by exists s.
  - destruct s as [|c s]; [done|].
    change (match_here (lits (a :: p) ++ r) (c :: s))
      with (if c =? a then match_here (lits p ++ r) s else None).
    destruct (N.eqb_spec c a) as [->|]; [|done].
    intros (s' & -> & H)%IH. by exists s'.
Qed.

(** A newline-free word that begins at or before a newline ends before
    it. *)
Lemma prefix_before_newline (p a b s' : pystr) :
  NL ∉ p -> a ++ NL :: b = p ++ s' -> ∃ q, a = p ++ q.
Proof.
  revert a. induction p as [|x p IH]; intros a Hp E.
  - by exists a.
  - apply not_elem_of_cons in Hp as [Hx Hp].
    destruct a as [|y a]; simpl in E.
    + injection E as E _. congruence.
    + injection E as -> E. destruct (IH a Hp E) as (q & ->). by exists q.
Qed.

Lemma lazy_broken_line (name rest : pystr) :
  (∀ pre post, name ≠ pre ++ preamble_tail ++ post) ->
  match_here (StarLazy Dot :: after_name) (name ++ NL :: rest) = None.
Proof.
  induction name as [|c name IH]; intros Hno; rewrite match_here_lazy.
  - destruct (match_here after_name ([] ++ NL :: rest)) eqn:E; [|done].
    apply match_here_lits_inv in E as (s' & E & _). discriminate E.
  - destruct (match_here after_name ((c :: name) ++ NL :: rest)) eqn:E.
    + apply match_here_lits_inv in E as (s' & E & _).
      apply prefix_before_newline in E as (q & E); [|compute_done].
      destruct (Hno [] q). exact E.
    + change ((c :: name) ++ NL :: rest) with (c :: name ++ NL :: rest).
      cbv beta iota. destruct (cls_match Dot c); [|done].
      apply IH. intros pre post ->. by destruct (Hno (c :: pre) post).
Qed.

(** X8: the preamble is removed when it is on one line: the opening words,
    a name with no newline (and without the first character of the closing
    words), the closing words and the white space after them go; the
    heading step and the trimming then work on the rest. *)
Theorem cleanup_removes_preamble (name rest : pystr) :
  NL ∉ name -> 0x7684 ∉ name ->
  cleanup (preamble_head ++ name ++ preamble_tail ++ rest)
  = strip (re_sub_anchored heading_re (lstrip rest)).
Proof.
  intros Hnl Hde. unfold cleanup. f_equal. f_equal.
  unfold re_sub_anchored, preamble_re.
  rewrite match_here_lits.
  change ([StarLazy Dot] ++ lits preamble_tail ++ [StarGreedy Space])
    with (StarLazy Dot :: after_name).
  by rewrite lazy_name.
Qed.

(** X9: the preamble pattern does not reach over a line end: when the
    opening words are followed by a newline and the closing words do not
    occur between the two, the preamble stays in the text and only the
    trimming applies. *)
Theorem cleanup_keeps_broken_preamble (name rest : pystr) :
  (∀ pre post, name ≠ pre ++ preamble_tail ++ post) ->
  re_sub_anchored preamble_re (preamble_head ++ name ++ NL :: rest)
  = preamble_head ++ name ++ NL :: rest /\
  cleanup (preamble_head ++ name ++ NL :: rest)
  = strip (preamble_head ++ name ++ NL :: rest).
Proof.
  intros Hno.
  assert (re_sub_anchored preamble_re (preamble_head ++ name ++ NL :: rest)
          = preamble_head ++ name ++ NL :: rest) as E.
  { unfold re_sub_anchored, preamble_re. rewrite match_here_lits.
    change ([StarLazy Dot] ++ lits preamble_tail ++ [StarGreedy Space])
      with (StarLazy Dot :: after_name).
    by rewrite lazy_broken_line. }
  split; [exact E|]. unfold cleanup. rewrite E. reflexivity.
Qed.

End CleanupShape.

Section RetryFacts.
Import PyStr Cleanup Store Templates Analysis.

Variable OPENAI_API_KEY : option pystr.
Variable chat : nat -> pystr -> option pystr.
Variable markdown : pystr -> pystr.

Lemma attempts_success (n k : nat) (p : pystr) (calls : nat) content :
  (k < n)%nat ->
  (∀ i, (i < k)%nat → chat (calls + i) p = None) ->
  chat (calls + k) p = Some content ->
  attempts chat n p calls = (inl (cleanup content), S (calls + k)).
Proof.
  revert k calls. induction n as [|n IH]; intros k calls Hk Hfail Hok;
    [lia|].
  simpl. destruct k as [|k].
  - rewrite Nat.add_0_r in Hok. rewrite Hok. by rewrite Nat.add_0_r.
  - pose proof (Hfail 0%nat ltac:(lia)) as H0.
    rewrite Nat.add_0_r in H0. rewrite H0.
    rewrite (IH k (S calls)); [f_equal; lia | lia | |].
    + intros i Hi. replace (S calls + i)%nat with (calls + S i)%nat by lia.
      apply Hfail. lia.
    + by replace (S calls + k)%nat with (calls + S k)%nat by lia.
Qed.

Lemma attempts_failure (n : nat) (p : pystr) (calls : nat) e calls' :
  attempts chat n p calls = (inr e, calls') <->
  e = retries_exhausted ∧ calls' = (calls + n)%nat ∧
  ∀ i, (i < n)%nat → chat (calls + i) p = None.
Proof.
  revert calls. induction n as [|n IH]; intros calls; simpl.
  - split.
    + intros [= <- <-]. repeat split; [lia | intros i Hi; lia].
    + intros (-> & -> & _). f_equal. lia.
  - destruct (chat calls p) as [c|] eqn:E.
    + split; [done|]. intros (_ & _ & Hall).
      specialize (Hall 0%nat ltac:(lia)). rewrite Nat.add_0_r in Hall.
      congruence.
    + rewrite IH. split.
      * intros (-> & -> & Hall). repeat split; [lia|].
        intros [|i] Hi; [by rewrite Nat.add_0_r|].
        replace (calls + S i)%nat with (S calls + i)%nat by lia.
        apply Hall. lia.
      * intros (-> & -> & Hall). repeat split; [lia|].
        intros i Hi.
        replace (S calls + i)%nat with (calls + S i)%nat by lia.
        apply Hall. lia.
Qed.

(** X10: on the generate path (a key is set, and regeneration is forced or
    the word has no row), when the first [k] requests fail and the next one
    answers, with [k] below [MAX_RETRIES], the answer is returned, cleaned,
    with no error, after [k + 1] requests. *)
Theorem retry_returns_first_answer
    word tc (force : bool) (d : db) (calls k : nat) content :
  key_missing OPENAI_API_KEY = false ->
  force = true ∨ word_cache d !! word = None ->
  (k < MAX_RETRIES)%nat ->
  (∀ i, (i < k)%nat → chat (calls + i) (prompt word tc) = None) ->
  chat (calls + k) (prompt word tc) = Some content ->
  get_word_analysis OPENAI_API_KEY chat word tc force d calls
  = (inl (cleanup content), S (calls + k)).
Proof.
  intros Hkey Hgen Hk Hfail Hok. unfold get_word_analysis.
  assert ((if force then None else word_cache d !! word) = None) as ->
    by (destruct Hgen as [-> | ->]; [done | by destruct force]).
  rewrite Hkey. by apply attempts_success.
Qed.

(** X11: on the generate path the result is an error exactly when
    [MAX_RETRIES] requests in a row fail; the error is then the
    retries-exhausted message and exactly [MAX_RETRIES] requests were
    sent. *)
Theorem error_iff_all_requests_fail
    word tc (force : bool) (d : db) (calls : nat) e calls' :
  key_missing OPENAI_API_KEY = false ->
  force = true ∨ word_cache d !! word = None ->
  get_word_analysis OPENAI_API_KEY chat word tc force d calls
    = (inr e, calls') <->
  e = retries_exhausted ∧ calls' = (calls + MAX_RETRIES)%nat ∧
  ∀ i, (i < MAX_RETRIES)%nat → chat (calls + i) (prompt word tc) = None.
Proof.
  intros Hkey Hgen. unfold get_word_analysis.
  assert ((if force then None else word_cache d !! word) = None) as ->
    by (destruct Hgen as [-> | ->]; [done | by destruct force]).
  rewrite Hkey. apply attempts_failure.
Qed.

(** X12: one call of [get_word_analysis] sends at most [MAX_RETRIES]
    requests, and none at all when it answers from the cache or when no key
    is set. *)
Theorem request_budget word tc (force : bool) (d : db) (calls : nat) :
  let calls' :=
    snd (get_word_analysis OPENAI_API_KEY chat word tc force d calls) in
  (calls ≤ calls' ≤ calls + MAX_RETRIES)%nat ∧
  (key_missing OPENAI_API_KEY = true → calls' = calls) ∧
  (force = false → is_Some (word_cache d !! word) → calls' = calls).
Proof.
  unfold get_word_analysis. split; [|split].
  - destruct (if force then None else word_cache d !! word); [simpl; lia|].
    destruct (key_missing OPENAI_API_KEY); [simpl; lia|].
    apply attempts_calls.
  - intros ->. by destruct (if force then None else word_cache d !! word).
  - intros -> [x ->]. done.
Qed.


(** X13: an analysis that succeeded is repeatable for free: asking again
    for the same word gives the same answer, sends no request and changes
    nothing, whatever the service or the key have become. *)
Theorem analyze_again_is_a_cache_hit
    word (d d' : db) (calls calls' : nat) html
    key' (chat' : nat -> pystr -> option pystr) (n : nat) :
  analyze OPENAI_API_KEY chat markdown word d calls
    = ((Analysis html, 200%Z), d', calls') ->
  analyze key' chat' markdown word d' n = ((Analysis html, 200%Z), d', n).
Proof.
  unfold analyze at 1.
  destruct (word_cache d !! word) as [cached|] eqn:Ehit.
  - intros [= <- <- _]. unfold analyze. by rewrite Ehit.
  - destruct (active_content d) as [tc|]; [|done].
    destruct (get_word_analysis _ _ _ _ _ _ _) as [[text|e] c]; [|done].
    intros [= <- <- _]. unfold analyze, store_analysis. simpl.
    by rewrite lookup_insert_eq.
Qed.


(** X15: the two analysis routes write one thing only: the entry of the
    word asked for.  Templates, the active setting and the entries of all
    other words are left as they were. *)
Theorem analysis_routes_touch_one_entry
    (forced : bool) word (d : db) (calls : nat) :
  let d' :=
    if forced then (reanalyze OPENAI_API_KEY chat word d calls).1.2
    else (analyze OPENAI_API_KEY chat markdown word d calls).1.2 in
  prompt_templates d' = prompt_templates d ∧
  app_settings d' = app_settings d ∧
  ∀ w, w ≠ word → word_cache d' !! w = word_cache d !! w.
Proof.
  assert (∀ t, prompt_templates (store_analysis word t d)
               = prompt_templates d ∧
               app_settings (store_analysis word t d) = app_settings d ∧
               ∀ w, w ≠ word →
                 word_cache (store_analysis word t d) !! w
                 = word_cache d !! w) as Hstore.
  { intros t. repeat split. intros w Hw. simpl.
    by rewrite lookup_insert_ne. }
  destruct forced; simpl.
  - unfold reanalyze. destruct (active_content d); [|done].
    destruct (get_word_analysis _ _ _ _ _ _ _) as [[t|e] c]; simpl;
      [apply Hstore | done].
  - unfold analyze. destruct (word_cache d !! word); [done|].
    destruct (active_content d); [|done].
    destruct (get_word_analysis _ _ _ _ _ _ _) as [[t|e] c]; simpl;
      [apply Hstore | done].
Qed.

(** X16: with no active template nothing is generated and nothing is
    written: [/reanalyze] answers 400 even for a cached word, while
    [/analyze] still serves a cached word and answers 400 for the others. *)
Theorem no_active_template_no_generation word (d : db) (calls : nat) :
  active_content d = None ->
  reanalyze OPENAI_API_KEY chat word d calls
    = ((Error (py "No active template found."), 400%Z), d, calls) ∧
  (word_cache d !! word = None →
   analyze OPENAI_API_KEY chat markdown word d calls
     = ((Error (py "No active template found."), 400%Z), d, calls)) ∧
  (∀ cached, word_cache d !! word = Some cached →
   analyze OPENAI_API_KEY chat markdown word d calls
     = ((Analysis (markdown cached), 200%Z), d, calls)).
Proof.
  intros Hnone. unfold reanalyze, analyze. rewrite Hnone.
  split; [done|]. split; [by intros ->|]. by intros cached ->.
Qed.

End RetryFacts.

Section TemplateRows.
Import PyStr Store Templates.

Local Open Scope Z_scope.

Lemma name_taken_true (self : option Z) (n : pystr) (m : gmap Z template) :
  name_taken self n m = true <->
  ∃ i t, m !! i = Some t ∧ name t = n ∧ self ≠ Some i.
Proof. unfold name_taken. apply bool_decide_eq_true. Qed.

Lemma name_taken_false (self : option Z) (n : pystr) (m : gmap Z template) :
  name_taken self n m = false <->
  ∀ i t, m !! i = Some t → name t = n → self = Some i.
Proof.
  unfold name_taken. rewrite bool_decide_eq_false. split.
  - intros Hno i t Hi Hn. destruct (decide (self = Some i)); [done|].
    destruct Hno. by exists i, t.
  - intros Hall (i & t & Hi & Hn & Hself). by apply Hself, (Hall i t).
Qed.

Lemma encodable_both (n c : pystr) :
  encodable n = false ∨ encodable c = false <->
  negb (encodable n && encodable c) = true.
Proof. destruct (encodable n), (encodable c); simpl; intuition congruence. Qed.

(** X17: [create_template] with a string name and content.  When one of
    them cannot be encoded (a lone surrogate), the INSERT raises, the view
    answers 500 and nothing is written.  Otherwise the name is refused
    exactly when a row has it, with status 409 and no change; else one row
    is added under a key that was not in use, which [get_template] returns
    (for a key within 64 bits), and every other row, the active setting and
    the cache are as they were. *)
Theorem create_adds_a_fresh_row (n c : pystr) (d : db) :
  let '(resp, d') := create_template (Some n) (Some c) d in
  (encodable n = false ∨ encodable c = false →
   resp = (Unhandled, 500) ∧ d' = d) ∧
  (encodable n = true → encodable c = true →
   ((∃ i t, prompt_templates d !! i = Some t ∧ name t = n) →
    resp = (Error (py "A template with this name already exists"), 409)
    ∧ d' = d) ∧
   ((∀ i t, prompt_templates d !! i = Some t → name t ≠ n) →
    ∃ new_id,
      resp = (Created (py "Template created") new_id, 201) ∧
      prompt_templates d !! new_id = None ∧
      prompt_templates d' !! new_id = Some (mk_template n c) ∧
      (fits_int64 new_id = true →
       get_template new_id d'
       = (TemplateRow new_id (mk_template n c), 200)) ∧
      (∀ j, j ≠ new_id →
            prompt_templates d' !! j = prompt_templates d !! j) ∧
      size (prompt_templates d') = S (size (prompt_templates d)) ∧
      app_settings d' = app_settings d ∧ word_cache d' = word_cache d)).
Proof.
  unfold create_template.
  destruct (negb (encodable n && encodable c)) eqn:Eenc.
  { split; [done|]. intros Hn Hc. by rewrite Hn, Hc in Eenc. }
  destruct (name_taken None n (prompt_templates d)) eqn:E;
    (split; [intros H%encodable_both; congruence|]); intros _ _.
  - apply name_taken_true in E as (i & t & Hi & Hn & _). split; [done|].
    intros Hfree. by destruct (Hfree i t Hi).
  - split.
    + intros (i & t & Hi & Hn).
      rewrite name_taken_false in E. by specialize (E i t Hi Hn).
    + intros _. exists (next_rowid (prompt_templates d)).
      pose proof (next_rowid_fresh (prompt_templates d)) as Hfresh.
      simpl. do 2 (split; [done|]).
      split; [apply lookup_insert_eq|].
      split; [|split; [|split; [|done]]].
      * intros Hfit. unfold get_template. simpl.
        by rewrite Hfit, lookup_insert_eq.
      * intros j Hj. by rewrite lookup_insert_ne.
      * by apply map_size_insert_None.
Qed.

(** X18: [update_template] with a string name and content never changes
    which keys exist, the active setting or the cache, and touches no
    other row.  When the name or the content cannot be encoded or the key
    is outside 64 bits, the UPDATE raises, the view answers 500 and nothing
    is written.  Otherwise: for a key with no row it answers that the
    template was updated and changes nothing; for an existing row it
    answers 409 and changes nothing when another row has the name, and
    else (its own name included) the row becomes the new name and
    content. *)
Theorem update_rewrites_one_row (id : Z) (n c : pystr) (d : db) :
  let '(resp, d') := update_template id (Some n) (Some c) d in
  dom (prompt_templates d') = dom (prompt_templates d) ∧
  app_settings d' = app_settings d ∧ word_cache d' = word_cache d ∧
  (∀ j, j ≠ id → prompt_templates d' !! j = prompt_templates d !! j) ∧
  (encodable n = false ∨ encodable c = false ∨ fits_int64 id = false →
   resp = (Unhandled, 500) ∧ d' = d) ∧
  (encodable n = true → encodable c = true → fits_int64 id = true →
   (prompt_templates d !! id = None →
    resp = (Message (py "Template updated"), 200) ∧ d' = d) ∧
   (is_Some (prompt_templates d !! id) →
    (∃ j t, prompt_templates d !! j = Some t ∧ name t = n ∧ j ≠ id) →
    resp = (Error (py "A template with this name already exists"), 409)
    ∧ d' = d) ∧
   (is_Some (prompt_templates d !! id) →
    (∀ j t, prompt_templates d !! j = Some t → name t = n → j = id) →
    resp = (Message (py "Template updated"), 200) ∧
    get_template id d' = (TemplateRow id (mk_template n c), 200))).
Proof.
  unfold update_template.
  destruct (negb (encodable n && encodable c && fits_int64 id)) eqn:Eenc.
  { do 4 (split; [done|]). split; [done|].
    intros Hn Hc Hi. by rewrite Hn, Hc, Hi in Eenc. }
  assert (encodable n = true ∧ encodable c = true ∧ fits_int64 id = true)
    as (Hn & Hc & Hfit)
    by (destruct (encodable n), (encodable c), (fits_int64 id); done).
  destruct (prompt_templates d !! id) as [t0|] eqn:Eid.
  2:{ do 4 (split; [done|]).
      split; [intros [?|[?|?]]; congruence|]. intros _ _ _.
      split; [done|]. split; by intros [x Hx]. }
  destruct (name_taken (Some id) n (prompt_templates d)) eqn:E.
  - do 4 (split; [done|]).
    split; [intros [?|[?|?]]; congruence|]. intros _ _ _.
    split; [done|]. split; [done|].
    intros _ Hfree. apply name_taken_true in E as (j & t & Hj & Hnm & Hne).
    destruct Hne. f_equal. symmetry. by apply (Hfree j t).
  - simpl. split; [apply dom_insert_lookup_L; by rewrite Eid|].
    do 2 (split; [done|]).
    split; [intros j Hj; by rewrite lookup_insert_ne|].
    split; [intros [?|[?|?]]; congruence|]. intros _ _ _.
    split; [done|]. split.
    + intros _ (j & t & Hj & Hnm & Hne).
      rewrite name_taken_false in E. specialize (E j t Hj Hnm). congruence.
    + intros _ _. split; [done|].
      unfold get_template. simpl. by rewrite Hfit, lookup_insert_eq.
Qed.

(** X19: with two templates or more, deleting a template that is not the
    active one, by a key within 64 bits, removes that row only: the active
    setting, the other rows and the cache stay, and the table has one row
    less; for a key with no row the answer is still that the template was
    deleted, and nothing changes.  For a key outside 64 bits the DELETE
    raises: the view answers 500 and nothing is written. *)
Theorem delete_other_keeps_active (id active : Z) (d : db) :
  (2 ≤ size (prompt_templates d))%nat ->
  app_settings d = Some active -> active ≠ id ->
  let '(resp, d') := delete_template id d in
  (fits_int64 id = false → resp = (Unhandled, 500) ∧ d' = d) ∧
  (fits_int64 id = true →
   resp = (Message (py "Template deleted"), 200) ∧
   prompt_templates d' !! id = None ∧
   (∀ j, j ≠ id → prompt_templates d' !! j = prompt_templates d !! j) ∧
   app_settings d' = Some active ∧ word_cache d' = word_cache d ∧
   (is_Some (prompt_templates d !! id) →
    S (size (prompt_templates d')) = size (prompt_templates d)) ∧
   (prompt_templates d !! id = None → d' = d)).
Proof.
  intros Hsz Hact Hne. unfold delete_template.
  rewrite bool_decide_eq_false_2 by lia.
  rewrite Hact, bool_decide_eq_false_2 by done.
  destruct (fits_int64 id); simpl; (split; [done|]); [|done]. intros _.
  split; [done|]. split; [apply lookup_delete_eq|].
  split; [intros j Hj; by rewrite lookup_delete_ne|].
  do 2 (split; [done|]). split.
  - intros Hsome. rewrite map_size_delete_Some by done.
    destruct (size (prompt_templates d)); [lia | done].
  - intros Hnone. destruct d as [wc m a]. simpl in *.
    by rewrite delete_id, Hact.
Qed.

(** X20: [set_active_template] with the key of an existing template makes
    it the one [get_active_template] returns, and changes no table; when
    [app_settings] has no row the request is accepted all the same, nothing
    is written and [get_active_template] keeps answering 404. *)
Theorem set_active_then_get (i : Z) (t : template) (d : db) :
  prompt_templates d !! i = Some t ->
  let '(resp, d') := set_active_template (Some i) d in
  resp = (Message (py "Active template updated"), 200) ∧
  prompt_templates d' = prompt_templates d ∧ word_cache d' = word_cache d ∧
  (is_Some (app_settings d) →
   get_active_template d' = (TemplateRow i t, 200)) ∧
  (app_settings d = None → d' = d ∧ get_active_template d' = (Empty, 404)).
Proof.
  intros Hrow. unfold set_active_template.
  do 3 (split; [done|]). split.
  - intros [a Ha]. unfold get_active_template, active_row. simpl.
    by rewrite Ha, Hrow.
  - intros Hnone. split.
    + destruct d as [wc m a]. simpl in *. by subst a.
    + unfold get_active_template, active_row. simpl. by rewrite Hnone.
Qed.

(** ** Names stay unique *)

Lemma insert_keeps_names_unique (i : Z) (n c : pystr) (m : gmap Z template) :
  names_unique m ->
  (∀ j t, m !! j = Some t → name t = n → j = i) ->
  names_unique (<[i := mk_template n c]> m).
Proof.
  intros Hu Hfree a b ta tb Ha Hb Hn.
  destruct (decide (a = i)) as [->|Hai], (decide (b = i)) as [->|Hbi];
    [done| | |].
  - rewrite lookup_insert_eq in Ha. injection Ha as <-.
    rewrite lookup_insert_ne in Hb by done. simpl in Hn.
    symmetry. by apply (Hfree b tb).
  - rewrite lookup_insert_eq in Hb. injection Hb as <-.
    rewrite lookup_insert_ne in Ha by done. simpl in Hn.
    by apply (Hfree a ta).
  - rewrite lookup_insert_ne in Ha, Hb by done. by apply (Hu a b ta tb).
Qed.

Lemma delete_keeps_names_unique (i : Z) (m : gmap Z template) :
  names_unique m -> names_unique (delete i m).
Proof.
  intros Hu a b ta tb Ha Hb. apply lookup_delete_Some in Ha as [_ Ha].
  apply lookup_delete_Some in Hb as [_ Hb]. by apply (Hu a b ta tb).
Qed.

Lemma request_keeps_names_unique (o : op) (d : db) :
  names_unique (prompt_templates d) ->
  names_unique (prompt_templates (snd (request o d))).
Proof.
  intros Hu. destruct o as [n c|i n c|i|i]; simpl.
  - unfold create_template.
    destruct (negb (encodable n && encodable c)); [done|].
    destruct (name_taken None n (prompt_templates d)) eqn:E; [done|].
    simpl. apply insert_keeps_names_unique; [done|].
    intros j t Hj Hn. rewrite name_taken_false in E.
    by specialize (E j t Hj Hn).
  - unfold update_template.
    destruct (negb (encodable n && encodable c && fits_int64 i)); [done|].
    destruct (prompt_templates d !! i) as [t0|]; [|done].
    destruct (name_taken (Some i) n (prompt_templates d)) eqn:E; [done|].
    simpl. apply insert_keeps_names_unique; [done|].
    intros j t Hj Hn. rewrite name_taken_false in E.
    specialize (E j t Hj Hn). congruence.
  - unfold delete_template.
    repeat (case_match; simpl; try done);
      by apply delete_keeps_names_unique.
  - done.
Qed.

(** X21: template names stay unique: from the database of the first start,
    or from any database in which they are, no sequence of create, update,
    delete and set-active requests, and no restart, gives two rows the same
    name. *)
Theorem names_stay_unique (ops : list op) (d : db) :
  names_unique (prompt_templates d) ->
  names_unique (prompt_templates (run ops d)) ∧
  ∀ wt, names_unique (prompt_templates (initialize_app wt (run ops d))).
Proof.
  intros Hu.
  assert (names_unique (prompt_templates (run ops d))) as Hrun.
  { revert d Hu. induction ops as [|o ops IH]; intros d Hu; [done|].
    simpl. apply IH. by apply request_keeps_names_unique. }
  split; [exact Hrun|]. intros wt. unfold initialize_app. simpl.
  case_bool_decide as Hsz; [|done].
  apply map_size_empty_inv in Hsz. rewrite Hsz.
  intros a b ta tb Ha Hb _.
  apply lookup_insert_Some in Ha as [[<- _]|[_ Ha]]; [|done].
  apply lookup_insert_Some in Hb as [[<- _]|[_ Hb]]; done.
Qed.

End TemplateRows.

Section StartupFacts.
Import PyStr Store Templates.

Local Open Scope Z_scope.

Lemma first_id_Some (m : gmap Z template) :
  m ≠ ∅ -> ∃ k, first_id m = Some k ∧ is_Some (m !! k).
Proof.
  intros Hne. unfold first_id, rows_by_name.
  set (l := (λ it : Z * template, (it.1, name it.2)) <$> map_to_list m).
  pose proof (merge_sort_Permutation by_name l) as Hperm.
  destruct (merge_sort by_name l) as [|[k n] rows].
  - apply Permutation_nil_l in Hperm. symmetry in Hperm.
    apply fmap_nil_inv, map_to_list_empty_iff in Hperm. done.
  - exists k. split; [done|].
    assert ((k, n) ∈ l) as Hin by (rewrite <- Hperm; apply list_elem_of_here).
    apply list_elem_of_fmap in Hin as ([j t] & [= -> ->] & Hin).
    exists t. by apply elem_of_map_to_list in Hin.
Qed.

(** X22: starting the application a second time changes nothing, and a
    database that has a template and a settings row is left as it is, also
    when the row names a template that does not exist. *)
Theorem initialize_app_is_idempotent (wt wt' : option pystr) (d : db) :
  initialize_app wt' (initialize_app wt d) = initialize_app wt d ∧
  (prompt_templates d ≠ ∅ → is_Some (app_settings d) →
   initialize_app wt d = d).
Proof.
  assert (∀ w x, prompt_templates x ≠ ∅ → is_Some (app_settings x) →
                 initialize_app w x = x) as Hfix.
  { intros w [wc m a] Hne [k Hk]. simpl in *. subst a.
    unfold initialize_app. simpl.
    rewrite bool_decide_eq_false_2; [done|].
    by apply map_size_non_empty_iff. }
  split; [|apply Hfix].
  apply Hfix; [apply initialize_app_has_a_template|].
  unfold initialize_app at 1. simpl.
  destruct (app_settings d); [by eexists|].
  match goal with |- is_Some (first_id ?m) => assert (m ≠ ∅) as Hne end.
  { case_bool_decide as Hsz; [apply insert_non_empty|].
    by apply map_size_non_empty_iff. }
  destruct (first_id_Some _ Hne) as (k & -> & _). by eexists.
Qed.

(** X23: when [app_settings] has no row, the start leaves an active
    setting that names an existing template, so [get_active_template]
    answers with a row; on empty tables that row is the template
    ["Default"] with the content of [word_template.md], or the fallback
    text when the file is missing. *)
Theorem startup_sets_an_active_template (wt : option pystr) (d : db) :
  app_settings d = None ->
  (∃ i t, get_active_template (initialize_app wt d) = (TemplateRow i t, 200)
          ∧ prompt_templates (initialize_app wt d) !! i = Some t) ∧
  (prompt_templates d = ∅ →
   get_active_template (initialize_app wt d)
   = (TemplateRow 1
        (mk_template (py "Default")
           (default (py "Please provide a default template.") wt)), 200)).
Proof.
  intros Hnone. split.
  - unfold get_active_template, active_row, initialize_app. simpl.
    rewrite Hnone.
    match goal with |- context [first_id ?m] => assert (m ≠ ∅) as Hne end.
    { case_bool_decide as Hsz; [apply insert_non_empty|].
      by apply map_size_non_empty_iff. }
    destruct (first_id_Some _ Hne) as (k & -> & [t Ht]).
    rewrite Ht. by exists k, t.
  - intros Hempty. destruct d as [wc m a]. simpl in *. subst m a.
    by destruct wt.
Qed.

(** X24: as long as every set-active request names a template that exists
    when it is made, the active setting of a database in which it names a
    row keeps naming one through any sequence of requests:
    [get_active_template] answers with a row each time. *)
Theorem active_setting_stays_valid (ops : list op) (d : db) :
  active_exists d -> targets_exist ops d ->
  ∃ i t, get_active_template (run ops d) = (TemplateRow i t, 200)
         ∧ prompt_templates (run ops d) !! i = Some t.
Proof.
  intros Hact Hops.
  assert (active_exists (run ops d)) as (i & Hi & [t Ht]).
  { revert d Hact Hops. induction ops as [|o ops IH]; intros d Hact Hops;
      [done|].
    destruct Hops as [Ho Hops]. simpl. apply IH; [|done].
    by apply request_keeps_active. }
  exists i, t. split; [|done].
  unfold get_active_template, active_row. by rewrite Hi, Ht.
Qed.

(** ** The list of templates *)

Lemma str_leb_total (a b : pystr) :
  str_leb a b = true ∨ str_leb b a = true.
Proof.
  revert b. induction a as [|x a IH]; intros [|y b]; simpl; auto.
  destruct (N.ltb_spec x y), (N.ltb_spec y x); auto.
Qed.

Lemma str_leb_trans (a b c : pystr) :
  str_leb a b = true -> str_leb b c = true -> str_leb a c = true.
Proof.
  revert b c. induction a as [|x a IH]; intros [|y b] [|z c]; simpl;
    try done.
  destruct (N.ltb_spec x y), (N.ltb_spec y x), (N.ltb_spec y z),
    (N.ltb_spec z y), (N.ltb_spec x z), (N.ltb_spec z x);
    try done; try lia.
  apply IH.
Qed.

Local Instance by_name_total : Total by_name.
Proof. intros r1 r2. apply str_leb_total. Qed.

Local Instance by_name_trans : Transitive by_name.
Proof. intros r1 r2 r3. apply str_leb_trans. Qed.

(** X25: [get_templates] lists every template once, as its key and name,
    and nothing else, in ascending order of name. *)
Theorem get_templates_lists_all_by_name (d : db) :
  ∃ rows,
    get_templates d = (TemplateList rows, 200) ∧
    StronglySorted by_name rows ∧
    length rows = size (prompt_templates d) ∧
    NoDup rows.*1 ∧
    ∀ i n, (i, n) ∈ rows ↔
           ∃ t, prompt_templates d !! i = Some t ∧ name t = n.
Proof.
  eexists. split; [reflexivity|]. unfold rows_by_name.
  set (f := λ it : Z * template, (it.1, name it.2)).
  set (l := f <$> map_to_list (prompt_templates d)).
  pose proof (merge_sort_Permutation by_name l) as Hperm.
  split; [apply StronglySorted_merge_sort; apply _|].
  split; [|split].
  - rewrite Hperm. unfold l. by rewrite length_fmap, length_map_to_list.
  - rewrite Hperm. unfold l. rewrite <- list_fmap_compose.
    apply NoDup_fst_map_to_list.
  - intros i n. rewrite Hperm. unfold l. rewrite list_elem_of_fmap. split.
    + intros ([j t] & [= -> ->] & Hin). exists t.
      by apply elem_of_map_to_list in Hin.
    + intros (t & Ht & <-). exists (i, t). split; [done|].
      by apply elem_of_map_to_list.
Qed.

End StartupFacts.

Section AudioCacheFacts.
Import PyStr Store Analysis Audio.

Variable OPENAI_API_KEY : option pystr.
Variable isalnum : N -> bool.
Variable speech : pystr -> option (list Byte.byte).
Variable write_fault : option nat.

(** X26: once the audio of a word is stored, every word with the same
    alphanumeric characters, the word itself and for instance the same
    letters with punctuation or spaces, is served that audio from the file,
    whatever the speech service would answer, and the files stay as they
    are. *)
Theorem stored_audio_is_served_by_stem
    (w1 w2 : pystr) (fs : files) audio
    (speech' : pystr -> option (list Byte.byte)) (fault' : option nat) :
  truthy w1 = true -> truthy w2 = true ->
  key_missing OPENAI_API_KEY = false ->
  fs !! filepath isalnum w1 = None ->
  speech w1 = Some audio ->
  filter (λ c, isalnum c = true) w2 = filter (λ c, isalnum c = true) w1 ->
  let fs' := snd (tts OPENAI_API_KEY isalnum speech None (Some w1) fs) in
  fs' !! filepath isalnum w1 = Some audio ∧
  tts OPENAI_API_KEY isalnum speech' fault' (Some w2) fs'
  = ((File audio, 200%Z), fs').
Proof.
  intros H1 H2 Hkey Hmiss Hok Hstem fs'.
  assert (fs' = <[filepath isalnum w1 := audio]> fs) as ->.
  { unfold fs', tts. by rewrite H1, Hkey, Hmiss, Hok. }
  assert (filepath isalnum w2 = filepath isalnum w1) as Hpath
    by (unfold filepath, filename; by rewrite Hstem).
  split; [apply lookup_insert_eq|].
  unfold tts. rewrite H2, Hkey, Hpath. simpl.
  by rewrite lookup_insert_eq.
Qed.

(** X27: [tts] never changes or removes a file that exists: whatever the
    request and the outcome, every path that had a file has the same bytes
    afterwards. *)
Theorem tts_keeps_existing_files
    (word : option pystr) (fs : files) (path : pystr) data :
  fs !! path = Some data ->
  snd (tts OPENAI_API_KEY isalnum speech write_fault word fs) !! path
  = Some data.
Proof.
  intros Hfile. unfold tts.
  destruct word as [w|]; [|done].
  destruct (truthy w); [|done]. simpl.
  destruct (key_missing OPENAI_API_KEY); [done|].
  destruct (fs !! filepath isalnum w) eqn:E; [done|].
  destruct (speech w); [|done].
  assert (filepath isalnum w ≠ path) by congruence.
  destruct write_fault; simpl; by rewrite lookup_insert_ne.
Qed.

(** X28: the cache path of a word is always a file directly in
    [AUDIO_CACHE_DIR]: since neither [/] nor [.] is alphanumeric, the name
    is made of characters of the word, without a separator or a dot,
    followed by [.mp3]. *)
Theorem cache_path_stays_in_directory (word : pystr) :
  isalnum 47 = false -> isalnum 46 = false ->
  ∃ stem,
    filepath isalnum word = py "static/audio_cache/" ++ stem ++ py ".mp3" ∧
    (47 ∉ stem) ∧ (46 ∉ stem) ∧ ∀ c, c ∈ stem → c ∈ word.
Proof.
  intros Hslash Hdot. exists (filter (λ c, isalnum c = true) word).
  split; [reflexivity|].
  split; [|split].
  - intros [H _]%list_elem_of_filter. congruence.
  - intros [H _]%list_elem_of_filter. congruence.
  - by intros c [_ H]%list_elem_of_filter.
Qed.

End AudioCacheFacts.

Section Runs.
Import PyStr Cleanup Parser Store Templates Analysis Audio.

Local Open Scope Z_scope.

Lemma outline_comes_from_content_lines_witness :
  ∃ raw, raw ∈ scenario_lines ∧ content_line raw = true
         ∧ py "lineX" = strip raw.
Proof.
  destruct (outline_comes_from_content_lines scenario_lines
              (mk_unit (py "Title A") [[py "lineX"]])) as [_ H].
  - change (parse_lines scenario_lines)
      with [mk_unit (py "Title A") [[py "lineX"]]].
    apply list_elem_of_here.
  - apply (H [py "lineX"] (py "lineX")); apply list_elem_of_here.
Defined.

Lemma cleanup_has_no_outer_space_witness :
  head (cleanup (py " a b ")) = Some 97%N ∧ isspace 97 = false.
Proof.
  assert (head (cleanup (py " a b ")) = Some 97%N) as H by reflexivity.
  split; [exact H|].
  apply (cleanup_has_no_outer_space (py " a b ")). by left.
Defined.

Lemma cleanup_removes_heading_line_witness :
  cleanup (35%N :: [32%N] ++ (84%N :: py "itle") ++ NL :: py "body ")
  = strip (py "body ").
Proof.
  apply (cleanup_removes_heading_line [32%N] (py "itle") (py "body ") 84).
  - by repeat constructor.
  - reflexivity.
  - compute_done.
Defined.

Lemma cleanup_removes_preamble_witness :
  cleanup (preamble_head ++ py "cat" ++ preamble_tail ++ py " body")
  = strip (re_sub_anchored heading_re (lstrip (py " body"))).
Proof.
  apply (cleanup_removes_preamble (py "cat") (py " body")); compute_done.
Defined.

Lemma cleanup_keeps_broken_preamble_witness :
  cleanup (preamble_head ++ py "cat" ++ NL :: py "x")
  = strip (preamble_head ++ py "cat" ++ NL :: py "x").
Proof.
  apply (cleanup_keeps_broken_preamble (py "cat") (py "x")).
  intros pre post H. apply (f_equal length) in H.
  rewrite !length_app in H. simpl in H. lia.
Defined.

Lemma retry_returns_first_answer_witness :
  get_word_analysis (Some (py "sk")) flaky (py "dog") (py "t") true
    with_cat 0
  = (inl (cleanup answer), 3%nat).
Proof.
  apply (retry_returns_first_answer (Some (py "sk")) flaky (py "dog")
           (py "t") true with_cat 0 2 answer).
  - reflexivity.
  - by left.
  - unfold MAX_RETRIES. lia.
  - intros [|[|i]] Hi; [reflexivity | reflexivity | lia].
  - reflexivity.
Defined.

Lemma error_iff_all_requests_fail_witness :
  get_word_analysis (Some (py "sk")) down (py "dog") (py "t") false
    with_cat 0
  = (inr retries_exhausted, (0 + MAX_RETRIES)%nat).
Proof.
  apply (error_iff_all_requests_fail (Some (py "sk")) down (py "dog")
           (py "t") false with_cat 0).
  - reflexivity.
  - right. reflexivity.
  - by repeat split.
Defined.

Lemma analyze_again_is_a_cache_hit_witness :
  analyze None down plain (py "dog")
    (store_analysis (py "dog") (py "a loyal animal") with_cat) 7
  = ((Analysis (py "a loyal animal"), 200),
     store_analysis (py "dog") (py "a loyal animal") with_cat, 7%nat).
Proof.
  apply (analyze_again_is_a_cache_hit (Some (py "sk")) flaky plain
           (py "dog") with_cat _ 0 3).
  vm_compute. reflexivity.
Defined.


Lemma no_active_template_no_generation_witness :
  reanalyze (Some (py "sk")) down (py "cat") empty_db 0
  = ((Error (py "No active template found."), 400), empty_db, 0%nat).
Proof.
  destruct (no_active_template_no_generation (Some (py "sk")) down plain
              (py "cat") empty_db 0) as [H _]; [reflexivity | exact H].
Defined.

Lemma delete_other_keeps_active_witness :
  let d := run [Create (py "b") (py "x")] (bootstrapped None) in
  fst (delete_template 2 d) = (Message (py "Template deleted"), 200) ∧
  app_settings (snd (delete_template 2 d)) = Some 1.
Proof.
  intros d.
  pose proof (delete_other_keeps_active 2 1 d) as H.
  destruct (delete_template 2 d) as [resp d'].
  destruct H as (_ & H).
  - vm_compute. lia.
  - reflexivity.
  - lia.
  - destruct H as (H1 & _ & _ & H4 & _); [reflexivity | by split].
Defined.

Lemma set_active_then_get_witness :
  let d := run [Create (py "b") (py "x")] (bootstrapped None) in
  get_active_template (snd (set_active_template (Some 2) d))
  = (TemplateRow 2 (mk_template (py "b") (py "x")), 200).
Proof.
  intros d.
  pose proof (set_active_then_get 2 (mk_template (py "b") (py "x")) d) as H.
  destruct (set_active_template (Some 2) d) as [resp d'].
  destruct H as (_ & _ & _ & H4 & _).
  - vm_compute. reflexivity.
  - apply H4. by eexists.
Defined.

Lemma names_stay_unique_witness :
  names_unique
    (prompt_templates
       (run [Create (py "a") (py "x"); Create (py "a") (py "y");
             Create (py "b") (py "z"); Update 2 (py "a") (py "w")]
          empty_db)).
Proof.
  apply names_stay_unique.
  intros i j ti tj Hi. simpl in Hi. by rewrite lookup_empty in Hi.
Defined.

Lemma startup_sets_an_active_template_witness :
  get_active_template (initialize_app None empty_db)
  = (TemplateRow 1
       (mk_template (py "Default")
          (py "Please provide a default template.")), 200).
Proof.
  by apply (startup_sets_an_active_template None empty_db).
Defined.

Lemma active_setting_stays_valid_witness :
  ∃ i t,
    get_active_template
      (run [Create (py "b") (py "x"); SetActive 2; Delete 2]
         (bootstrapped None))
    = (TemplateRow i t, 200).
Proof.
  destruct (active_setting_stays_valid
              [Create (py "b") (py "x"); SetActive 2; Delete 2]
              (bootstrapped None)) as (i & t & H & _).
  - apply bootstrapped_active.
  - simpl. split; [by intros i [=]|].
    split; [intros i [= <-]; vm_compute; by eexists|].
    split; [by intros i [=] | done].
  - by exists i, t.
Defined.

Lemma stored_audio_is_served_by_stem_witness :
  let fs' :=
    snd (tts (Some (py "sk")) ascii_alnum three_bytes None
           (Some (py "cat!")) ∅) in
  tts (Some (py "sk")) ascii_alnum silent None (Some (py "c a t")) fs'
  = ((File [Byte.x49; Byte.x44; Byte.x33], 200), fs').
Proof.
  intros fs'.
  apply (stored_audio_is_served_by_stem (Some (py "sk")) ascii_alnum
           three_bytes (py "cat!") (py "c a t") ∅
           [Byte.x49; Byte.x44; Byte.x33] silent None);
    reflexivity.
Defined.

Lemma tts_keeps_existing_files_witness :
  snd (tts (Some (py "sk")) ascii_alnum three_bytes (Some 1%nat)
         (Some (py "cat")) {[py "x" := [Byte.x49]]})
    !! py "x" = Some [Byte.x49].
Proof.
  apply tts_keeps_existing_files. reflexivity.
Defined.

Lemma cache_path_stays_in_directory_witness :
  ∃ stem,
    filepath ascii_alnum (py "../etc/passwd")
    = py "static/audio_cache/" ++ stem ++ py ".mp3" ∧
    (47%N ∉ stem) ∧ (46%N ∉ stem) ∧
    ∀ c, c ∈ stem → c ∈ py "../etc/passwd".
Proof.
  apply (cache_path_stays_in_directory ascii_alnum (py "../etc/passwd"));
    reflexivity.
Defined.

End Runs.
